(** * Multitouch controls overlay: joystick and action buttons

    A shallow embedding of [src/components/game/controls-overlay.tsx]
    (the [ControlsOverlay] component) and proofs about its touch routing.

    Numbers.  JavaScript numbers are idealised as real numbers: no NaN, no
    infinities, no rounding and no signed zero.  Every statement about the
    value or the range of a quotient by [maxDistance] carries the hypothesis
    [0 < maxDistance], so that the total division of [R] never stands in for
    a NaN or for a negative radius.

    React.  State created with [useState] ([overlaySize], [joyPos],
    [joyActive], [pressedButtons]) is read by a handler from the closure of
    the render it belongs to and written through its setter; state created
    with [useRef] ([joystickTouchId], [buttonTouches]) is read and written in
    place.  A handler therefore takes the rendered state [r] next to the
    state it updates, and a render commits between two handler calls
    ([dispatch]). *)

From Stdlib Require Import Reals Lra Lia ZArith.
From stdpp Require Import base decidable countable gmap strings list.

Local Open Scope R_scope.

(** ** Numbers and [Math] *)

Definition Rleb (a b : R) : bool := if Rle_dec a b then true else false.
Definition Rgtb (a b : R) : bool := if Rgt_dec a b then true else false.

(** A number is truthy when it is not zero. *)
Definition truthy (a : R) : bool := if Req_dec_T a 0 then false else true.

Module Math.

Definition sqrt : R -> R := R_sqrt.sqrt.
Definition cos : R -> R := Rtrigo_def.cos.
Definition sin : R -> R := Rtrigo_def.sin.
Definition PI : R := Rtrigo1.PI.
Definition min : R -> R -> R := Rmin.
Definition max : R -> R -> R := Rmax.

(** [Math.atan2(y, x)]: the angle of the point [(x, y)], in (-PI, PI];
    [atan2(0, 0)] is [0]. *)
Definition atan2 (y x : R) : R :=
  if Rlt_dec 0 x then atan (y / x)
  else if Rlt_dec x 0 then
    (if Rle_dec 0 y then atan (y / x) + PI else atan (y / x) - PI)
  else if Rlt_dec 0 y then PI / 2
  else if Rlt_dec y 0 then - (PI / 2)
  else 0.

End Math.

(** Truncation toward zero, and the remainder operator [%], whose result has
    the sign of the dividend. *)
Definition Rtrunc (a : R) : Z :=
  if Rle_dec 0 a then Int_part a else (- Int_part (- a))%Z.

Definition js_rem (a b : R) : R := a - b * IZR (Rtrunc (a / b)).

(** ** Data *)

Inductive ActionType := attack | dodge | jump | run.

#[global] Instance ActionType_eq_dec : EqDecision ActionType.
Proof. solve_decision. Defined.

Definition ActionType_code (a : ActionType) : nat :=
  match a with attack => 0 | dodge => 1 | jump => 2 | run => 3 end.

Definition ActionType_of_code (n : nat) : ActionType :=
  match n with O => attack | 1%nat => dodge | 2%nat => jump | _ => run end.

#[global] Instance ActionType_countable : Countable ActionType.
Proof.
  apply (inj_countable' ActionType_code ActionType_of_code).
  intros []; reflexivity.
Defined.

(** A touch identifier has type [number | string]. *)
Inductive TouchId := NumId (n : Z) | StrId (s : string).

#[global] Instance TouchId_eq_dec : EqDecision TouchId.
Proof. solve_decision. Defined.

Definition TouchId_to_sum (i : TouchId) : Z + string :=
  match i with NumId n => inl n | StrId s => inr s end.

Definition TouchId_of_sum (i : Z + string) : TouchId :=
  match i with inl n => NumId n | inr s => StrId s end.

#[global] Instance TouchId_countable : Countable TouchId.
Proof.
  apply (inj_countable' TouchId_to_sum TouchId_of_sum).
  intros []; reflexivity.
Defined.

(** An entry of [changedTouches]. *)
Record Touch := { identifier : TouchId; pageX : R; pageY : R }.

Record Point := { x : R; y : R }.

Record Size := { width : R; height : R }.

Module JoystickData.
Record t := { x : R; y : R; angle : R; distance : R }.
End JoystickData.

(** A call of one of the four optional callback props. *)
Inductive Callback :=
| onJoystickMove (data : JoystickData.t)
| onJoystickRelease
| onButtonPress (action : ActionType)
| onButtonRelease (action : ActionType).

(** The hooks of the component. *)
Record Overlay := {
  overlaySize : Size;
  joyPos : Point;
  joyActive : bool;
  joystickTouchId : option TouchId;
  pressedButtons : gset ActionType;
  buttonTouches : gmap TouchId ActionType
}.

Definition setOverlaySize (v : Size) (s : Overlay) : Overlay :=
  {| overlaySize := v; joyPos := joyPos s; joyActive := joyActive s;
     joystickTouchId := joystickTouchId s;
     pressedButtons := pressedButtons s; buttonTouches := buttonTouches s |}.

Definition setJoyPos (v : Point) (s : Overlay) : Overlay :=
  {| overlaySize := overlaySize s; joyPos := v; joyActive := joyActive s;
     joystickTouchId := joystickTouchId s;
     pressedButtons := pressedButtons s; buttonTouches := buttonTouches s |}.

Definition setJoyActive (v : bool) (s : Overlay) : Overlay :=
  {| overlaySize := overlaySize s; joyPos := joyPos s; joyActive := v;
     joystickTouchId := joystickTouchId s;
     pressedButtons := pressedButtons s; buttonTouches := buttonTouches s |}.

Definition setJoystickTouchId (v : option TouchId) (s : Overlay) : Overlay :=
  {| overlaySize := overlaySize s; joyPos := joyPos s;
     joyActive := joyActive s; joystickTouchId := v;
     pressedButtons := pressedButtons s; buttonTouches := buttonTouches s |}.

(** [setPressedButtons] is always called with an updater function. *)
Definition setPressedButtons (f : gset ActionType -> gset ActionType)
    (s : Overlay) : Overlay :=
  {| overlaySize := overlaySize s; joyPos := joyPos s;
     joyActive := joyActive s; joystickTouchId := joystickTouchId s;
     pressedButtons := f (pressedButtons s);
     buttonTouches := buttonTouches s |}.

Definition updButtonTouches
    (f : gmap TouchId ActionType -> gmap TouchId ActionType)
    (s : Overlay) : Overlay :=
  {| overlaySize := overlaySize s; joyPos := joyPos s;
     joyActive := joyActive s; joystickTouchId := joystickTouchId s;
     pressedButtons := pressedButtons s;
     buttonTouches := f (buttonTouches s) |}.

(** ** Handlers as state transformers that log the callbacks they call *)

Definition Eff : Type := Overlay -> Overlay * list Callback.

Definition skip : Eff := fun s => (s, []).
Definition modify (f : Overlay -> Overlay) : Eff := fun s => (f s, []).
Definition call (c : Callback) : Eff := fun s => (s, [c]).

Definition andThen (a b : Eff) : Eff := fun s =>
  let '(s1, o1) := a s in
  let '(s2, o2) := b s1 in
  (s2, o1 ++ o2).

Notation "a >> b" := (andThen a b) (at level 90, right associativity).

(** [for (const t of ts) body(t)] *)
Fixpoint forOf (ts : list Touch) (body : Touch -> Eff) : Eff :=
  match ts with
  | [] => skip
  | t :: rest => body t >> forOf rest body
  end.

(** [buttons]: the entries in declaration order (label and colour are only
    drawn). *)
Record Button := { type : ActionType; right : R; bottom : R }.

Definition buttons : list Button :=
  [ {| type := attack; right := 20; bottom := 80 |};
    {| type := dodge; right := 100; bottom := 20 |};
    {| type := jump; right := 100; bottom := 140 |};
    {| type := run; right := 180; bottom := 80 |} ].

Definition buttonRadius : R := 30.
Definition joystickLeft : R := 30.
Definition joystickBottom : R := 40.

Section ControlsOverlay.

(** The [joystickSize] prop (140 when omitted). *)
Variable joystickSize : R.

Definition maxDistance : R := joystickSize / 2 - 20.

Definition joystickCenter (r : Overlay) : Point :=
  {| x := joystickLeft + joystickSize / 2;
     y := height (overlaySize r) - (joystickBottom + joystickSize / 2) |}.

Definition getButtonCenter (r : Overlay) (b : Button) : Point :=
  {| x := width (overlaySize r) - (right b + buttonRadius);
     y := height (overlaySize r) - (bottom b + buttonRadius) |}.

Definition hitTestJoystick (r : Overlay) (px py : R) : bool :=
  let dx := px - x (joystickCenter r) in
  let dy := py - y (joystickCenter r) in
  let dist := Math.sqrt (dx * dx + dy * dy) in
  Rleb dist (joystickSize / 2).

Fixpoint hitTestButtonsIn (bs : list Button) (r : Overlay) (px py : R)
    : option ActionType :=
  match bs with
  | [] => None
  | b :: rest =>
      let c := getButtonCenter r b in
      let dx := px - x c in
      let dy := py - y c in
      let dist := Math.sqrt (dx * dx + dy * dy) in
      if Rleb dist buttonRadius then Some (type b)
      else hitTestButtonsIn rest r px py
  end.

Definition hitTestButtons : Overlay -> R -> R -> option ActionType :=
  hitTestButtonsIn buttons.

(** The knob offset [(finalX, finalY)] that [moveJoystickWithTouch]
    stores. *)
Definition knobOffset (dx dy : R) : Point :=
  let distance := Math.sqrt (dx * dx + dy * dy) in
  if Rgtb distance maxDistance then
    let angleRad := Math.atan2 dy dx in
    {| x := Math.cos angleRad * maxDistance;
       y := Math.sin angleRad * maxDistance |}
  else {| x := dx; y := dy |}.

(** The record that [moveJoystickWithTouch] hands to [onJoystickMove]. *)
Definition joystickData (dx dy : R) : JoystickData.t :=
  let distance := Math.sqrt (dx * dx + dy * dy) in
  let normalizedDistance := Math.min (distance / maxDistance) 1 in
  let angle := js_rem (Math.atan2 dy dx * 180 / Math.PI + 360) 360 in
  let normalizedX := Math.max (-1) (Math.min 1 (dx / maxDistance)) in
  let normalizedY := Math.max (-1) (Math.min 1 (dy / maxDistance)) in
  {| JoystickData.x := normalizedX;
     JoystickData.y := normalizedY;
     JoystickData.angle := angle;
     JoystickData.distance := normalizedDistance |}.

Definition moveJoystickWithTouch (r : Overlay) (px py : R) : Eff :=
  let dx := px - x (joystickCenter r) in
  let dy := py - y (joystickCenter r) in
  modify (setJoyPos (knobOffset dx dy)) >>
  call (onJoystickMove (joystickData dx dy)).

Definition startJoystickWithTouch (r : Overlay) (id : TouchId)
    (px py : R) : Eff :=
  modify (setJoystickTouchId (Some id)) >>
  modify (setJoyActive true) >>
  moveJoystickWithTouch r px py.

Definition releaseJoystick (r : Overlay) : Eff :=
  if negb (joyActive r) then skip
  else
    modify (setJoystickTouchId None) >>
    modify (setJoyActive false) >>
    modify (setJoyPos {| x := 0; y := 0 |}) >>
    call onJoystickRelease.

Definition touchStart1 (r : Overlay) (t : Touch) : Eff := fun s =>
  let id := identifier t in
  let px := pageX t in
  let py := pageY t in
  if bool_decide (joystickTouchId s = None) && hitTestJoystick r px py
  then startJoystickWithTouch r id px py s
  else
    match hitTestButtons r px py with
    | Some btn =>
        (modify (updButtonTouches (insert id btn)) >>
         modify (setPressedButtons (fun prev => prev ∪ {[ btn ]})) >>
         call (onButtonPress btn)) s
    | None => skip s
    end.

Definition handleTouchStart (r : Overlay) (changed : list Touch) : Eff :=
  forOf changed (touchStart1 r).

Definition touchMove1 (r : Overlay) (t : Touch) : Eff := fun s =>
  let id := identifier t in
  if bool_decide (Some id = joystickTouchId s)
  then moveJoystickWithTouch r (pageX t) (pageY t) s
  else skip s.

Definition handleTouchMove (r : Overlay) (moved : list Touch) : Eff :=
  forOf moved (touchMove1 r).

Definition touchEnd1 (r : Overlay) (t : Touch) : Eff :=
  let id := identifier t in
  (fun s =>
     if bool_decide (Some id = joystickTouchId s)
     then releaseJoystick r s else skip s) >>
  (fun s =>
     match buttonTouches s !! id with
     | Some btn =>
         (modify (updButtonTouches (delete id)) >>
          modify (setPressedButtons (fun prev => prev ∖ {[ btn ]})) >>
          call (onButtonRelease btn)) s
     | None => skip s
     end).

Definition handleTouchEnd (r : Overlay) (ended : list Touch) : Eff :=
  forOf ended (touchEnd1 r).

(** The [onLayout] prop. *)
Definition onLayout (w h : R) : Eff :=
  if truthy w && truthy h
  then modify (setOverlaySize {| width := w; height := h |})
  else skip.

(** What the host delivers to the overlay.  [onTouchCancel] is wired to
    [handleTouchEnd]. *)
Inductive HostEvent :=
| TouchStart (changed : list Touch)
| TouchMove (changed : list Touch)
| TouchEnd (changed : list Touch)
| TouchCancel (changed : list Touch)
| Layout (w h : R).

Definition dispatch (ev : HostEvent) : Eff := fun s =>
  match ev with
  | TouchStart ts => handleTouchStart s ts s
  | TouchMove ts => handleTouchMove s ts s
  | TouchEnd ts => handleTouchEnd s ts s
  | TouchCancel ts => handleTouchEnd s ts s
  | Layout w h => onLayout w h s
  end.

Fixpoint runEvents (evs : list HostEvent) : Eff :=
  match evs with
  | [] => skip
  | ev :: rest => dispatch ev >> runEvents rest
  end.

(** The first render: the window size, nothing bound, nothing pressed. *)
Definition initial (window : Size) : Overlay :=
  {| overlaySize := window;
     joyPos := {| x := 0; y := 0 |};
     joyActive := false;
     joystickTouchId := None;
     pressedButtons := ∅;
     buttonTouches := ∅ |}.

(** ** Vocabulary of the specification *)

Definition ids (ts : list Touch) : list TouchId := identifier <$> ts.

(** The control a touch drives. *)
Inductive Control := Joystick | ButtonControl (action : ActionType).

Definition binding (s : Overlay) (id : TouchId) : option Control :=
  if bool_decide (joystickTouchId s = Some id) then Some Joystick
  else ButtonControl <$> buttonTouches s !! id.

Definition bound (s : Overlay) (id : TouchId) : Prop :=
  joystickTouchId s = Some id \/ is_Some (buttonTouches s !! id).

Definition unbound (s : Overlay) (id : TouchId) : Prop :=
  joystickTouchId s <> Some id /\ buttonTouches s !! id = None.

(** No identifier is the joystick's touch and a key of the button table. *)
Definition exclusive (s : Overlay) : Prop :=
  forall id, ~ (joystickTouchId s = Some id /\
                is_Some (buttonTouches s !! id)).

Definition oneJoystickTouch (s : Overlay) : Prop :=
  forall i j, binding s i = Some Joystick -> binding s j = Some Joystick ->
              i = j.

Definition oneTouchPerButton (s : Overlay) : Prop :=
  forall i j b, buttonTouches s !! i = Some b ->
                buttonTouches s !! j = Some b -> i = j.

(** [joyActive] is true exactly while the joystick has a touch. *)
Definition activeInSync (s : Overlay) : Prop :=
  joyActive s = true <-> joystickTouchId s <> None.

(** What the host guarantees: the touches that begin together have distinct
    identifiers, none of which belongs to a touch that is still down.
    [live] is the set of touches that are down. *)
Fixpoint hostOk (live : gset TouchId) (evs : list HostEvent) : Prop :=
  match evs with
  | [] => True
  | TouchStart ts :: rest =>
      NoDup (ids ts) /\ (forall i, i ∈ ids ts -> i ∉ live) /\
      hostOk (live ∪ list_to_set (ids ts)) rest
  | TouchMove ts :: rest => hostOk live rest
  | TouchEnd ts :: rest => hostOk (live ∖ list_to_set (ids ts)) rest
  | TouchCancel ts :: rest => hostOk (live ∖ list_to_set (ids ts)) rest
  | Layout _ _ :: rest => hostOk live rest
  end.

(** The states the overlay can be in after a render. *)
Definition reachable (s : Overlay) : Prop :=
  exists window evs, s = fst (runEvents evs (initial window)).

Definition beginsTouch (ev : HostEvent) (id : TouchId) : Prop :=
  match ev with
  | TouchStart ts => id ∈ ids ts
  | _ => False
  end.

Definition endsTouch (ev : HostEvent) (id : TouchId) : Prop :=
  match ev with
  | TouchEnd ts | TouchCancel ts => id ∈ ids ts
  | _ => False
  end.

(** Euclidean distance between two points. *)
Definition euclid (px py cx cy : R) : R :=
  R_sqrt.sqrt ((px - cx) ^ 2 + (py - cy) ^ 2).

(** [clamp v lo hi] in the words of the specification. *)
Definition clamp (v lo hi : R) : R :=
  if Rlt_dec v lo then lo else if Rlt_dec hi v then hi else v.

(** Degrees of an angle in radians. *)
Definition degrees (a : R) : R := a * 180 / Rtrigo1.PI.

(** The mathematical [mod]: the remainder of the floored division. *)
Definition Rmod (a b : R) : R := a - b * IZR (Int_part (a / b)).

Definition at_ (id : Z) (p : Point) : Touch :=
  {| identifier := NumId id; pageX := x p; pageY := y p |}.

(** A point is inside a hit circle when its Euclidean distance to the
    centre is at most the radius. *)
Definition inCircle (px py : R) (c : Point) (radius : R) : Prop :=
  euclid px py (x c) (y c) <= radius.



Definition noBegin (evs : list HostEvent) (id : TouchId) : Prop :=
  forall ev, ev ∈ evs -> ~ beginsTouch ev id.

(** The state after the joystick, or a button, let go of a touch. *)
Definition joystickReleased (s : Overlay) : Overlay :=
  setJoyPos {| x := 0; y := 0 |}
    (setJoyActive false (setJoystickTouchId None s)).

Definition buttonReleased (id : TouchId) (btn : ActionType) (s : Overlay)
    : Overlay :=
  setPressedButtons (fun prev => prev ∖ {[ btn ]})
    (updButtonTouches (delete id) s).

(** While an end batch runs, the closure still holds the [joyActive] of the
    render; it is true whenever the joystick has kept its touch. *)
Definition renderKnows (r s : Overlay) : Prop :=
  joystickTouchId s <> None -> joyActive r = true.

(** Every touch with a control is down, and no touch has two controls. *)
Definition tidy (live : gset TouchId) (s : Overlay) : Prop :=
  (forall id, bound s id -> id ∈ live) /\ exclusive s.

(** The data the overlay reports for a touch at [(px, py)]. *)
Definition dataAt (r : Overlay) (t : Touch) : JoystickData.t :=
  joystickData (pageX t - x (joystickCenter r))
               (pageY t - y (joystickCenter r)).

(** The moves of a batch that belong to the joystick's touch. *)
Definition joystickMoves (s : Overlay) (ts : list Touch) : list Touch :=
  filter (fun t => Some (identifier t) = joystickTouchId s) ts.

(** The invariant with the clause that a button has at most one touch. *)
Definition exclusiveWithSingleTouchButtons (s : Overlay) : Prop :=
  exclusive s /\ oneJoystickTouch s /\ oneTouchPerButton s.

(** The reported [x] and [y] read off the projected knob offset. *)
Definition normalizedFromProjection (dx dy : R) : Prop :=
  JoystickData.x (joystickData dx dy) = x (knobOffset dx dy) / maxDistance /\
  JoystickData.y (joystickData dx dy) = y (knobOffset dx dy) / maxDistance.

(** A landscape window of 800 by 400 and, for the default joystick size of
    140, the centre of the joystick and of two buttons in it. *)
Definition window0 : Size := {| width := 800; height := 400 |}.
Definition stickCentre : Point := {| x := 100; y := 290 |}.
Definition attackCentre : Point := {| x := 750; y := 290 |}.
Definition jumpCentre : Point := {| x := 670; y := 230 |}.

Definition twoOnAttack : list HostEvent :=
  [TouchStart [at_ 1 attackCentre; at_ 2 attackCentre]].

Definition jumpThenAttack : list HostEvent :=
  [TouchStart [at_ 1 jumpCentre]; TouchStart [at_ 2 attackCentre]].

Definition stickDown : list HostEvent :=
  [TouchStart [at_ 1 stickCentre]].

(** A batch no host delivers: one identifier begins twice. *)
Definition sameIdTwice : list HostEvent :=
  [TouchStart [at_ 1 stickCentre; at_ 1 attackCentre]].

(** The first render in [window0], and a state in which touch 1 has the
    joystick. *)
Definition s0 : Overlay := initial window0.

Definition sStick : Overlay :=
  setJoyActive true (setJoystickTouchId (Some (NumId 1)) s0).

(** ** The rest of the overlay's callers and siblings *)

(** Counting the button callbacks in a log. *)
Definition isPress (c : Callback) : bool :=
  match c with onButtonPress _ => true | _ => false end.

Definition isRelease (c : Callback) : bool :=
  match c with onButtonRelease _ => true | _ => false end.

Definition isMove (c : Callback) : bool :=
  match c with onJoystickMove _ => true | _ => false end.

Definition pressCount (outs : list Callback) : nat :=
  length (List.filter isPress outs).

Definition releaseCount (outs : list Callback) : nat :=
  length (List.filter isRelease outs).

(** Every pressed button is in the table for some touch. *)
Definition pressedAreHeld (s : Overlay) : Prop :=
  forall b, b ∈ pressedButtons s ->
            exists id, buttonTouches s !! id = Some b.

(** The knob is within its travel, and rests at the centre, with
    [joyActive] false, while the joystick has no touch. *)
Definition knobWithinTravel (s : Overlay) : Prop :=
  euclid (x (joyPos s)) (y (joyPos s)) 0 0 <= maxDistance.

Definition knobAtRest (s : Overlay) : Prop :=
  joystickTouchId s = None -> joyPos s = {| x := 0; y := 0 |}.

(** The overlay resized by [(dw, dh)]. *)
Definition resized (dw dh : R) (r : Overlay) : Overlay :=
  setOverlaySize {| width := width (overlaySize r) + dw;
                    height := height (overlaySize r) + dh |} r.

(** *** [GameScreen] of [src/app/(tabs)/game.tsx] *)

Definition zeroData : JoystickData.t :=
  {| JoystickData.x := 0; JoystickData.y := 0;
     JoystickData.angle := 0; JoystickData.distance := 0 |}.

(** The three [useState] hooks of the screen. *)
Record GameScreen := {
  screenJoystickData : JoystickData.t;
  activeButtons : gset ActionType;
  showTabBar : bool
}.

Definition initialScreen : GameScreen :=
  {| screenJoystickData := zeroData; activeButtons := ∅;
     showTabBar := false |}.

Definition handleJoystickMove (data : JoystickData.t) (g : GameScreen)
    : GameScreen :=
  {| screenJoystickData := data; activeButtons := activeButtons g;
     showTabBar := showTabBar g |}.

Definition handleJoystickRelease (g : GameScreen) : GameScreen :=
  {| screenJoystickData := zeroData; activeButtons := activeButtons g;
     showTabBar := showTabBar g |}.

Definition handleButtonPress (action : ActionType) (g : GameScreen)
    : GameScreen :=
  {| screenJoystickData := screenJoystickData g;
     activeButtons := activeButtons g ∪ {[ action ]};
     showTabBar := showTabBar g |}.

Definition handleButtonRelease (action : ActionType) (g : GameScreen)
    : GameScreen :=
  {| screenJoystickData := screenJoystickData g;
     activeButtons := activeButtons g ∖ {[ action ]};
     showTabBar := showTabBar g |}.

(** The props the screen passes to [ControlsOverlay]. *)
Definition deliver (c : Callback) (g : GameScreen) : GameScreen :=
  match c with
  | onJoystickMove data => handleJoystickMove data g
  | onJoystickRelease => handleJoystickRelease g
  | onButtonPress action => handleButtonPress action g
  | onButtonRelease action => handleButtonRelease action g
  end.

Definition deliverAll (outs : list Callback) (g : GameScreen) : GameScreen :=
  fold_left (fun g0 c => deliver c g0) outs g.

(** The screen after the overlay has handled [evs], both from their first
    render. *)
Definition screenAfter (window : Size) (evs : list HostEvent) : GameScreen :=
  deliverAll (snd (runEvents evs (initial window))) initialScreen.

Definition inRange (d : JoystickData.t) : Prop :=
  -1 <= JoystickData.x d <= 1 /\ -1 <= JoystickData.y d <= 1 /\
  0 <= JoystickData.angle d < 360 /\ 0 <= JoystickData.distance d <= 1.

(** The values of [Platform.OS]. *)
Inductive PlatformOS := ios | android | windows | macos | web.

(** A touch of the page's [TouchEvent]. *)
Record ClientTouch := { clientX : R; clientY : R }.

(** The [touchstart] listener of the script that the screen injects into
    the page.  It looks at [e.touches[0]], the first touch that is down,
    and answers [Some true] when it stops the event and [Some false] when
    it lets it pass; with no touch in [e.touches] reading [clientX] throws,
    which is [None]. *)
Definition injectedListener (eTouches : list ClientTouch)
    (innerWidth innerHeight : R) : option bool :=
  match eTouches with
  | [] => None
  | first :: _ =>
      let cx := clientX first in
      let cy := clientY first in
      if Rgtb 250 cx && Rgtb cy (innerHeight - 250) then Some true
      else if Rgtb cx (innerWidth - 300) && Rgtb cy (innerHeight - 300)
      then Some true
      else Some false
  end.

(** The [injectedJavaScript] prop: the script on Android, [undefined]
    elsewhere. *)
Definition injectedJavaScript (os : PlatformOS)
    : option (list ClientTouch -> R -> R -> option bool) :=
  match os with
  | android => Some injectedListener
  | _ => None
  end.

(** *** [VirtualJoystick] of [src/components/game/virtual-joystick.tsx]

    Its [size] prop is the section's [joystickSize]: the component computes
    [maxDistance] and the data of a move with the expressions of the
    overlay.  Logging and the [setNativeProps] call of [handleTouchStart]
    touch none of the hooks and are left out. *)

Record VirtualJoystick := {
  isActive : bool;
  position : Point;
  activeTouchId : option TouchId;
  startPosition : Point
}.

Record GestureResponderEvent := {
  touches : list Touch;
  changedTouches : list Touch
}.

Inductive JoystickCallback :=
| onMove (data : JoystickData.t)
| onRelease.

Definition VirtualJoystick_initial : VirtualJoystick :=
  {| isActive := false; position := {| x := 0; y := 0 |};
     activeTouchId := None; startPosition := {| x := 0; y := 0 |} |}.

Definition VirtualJoystick_handleTouchStart (event : GestureResponderEvent)
    (v : VirtualJoystick) : VirtualJoystick * list JoystickCallback :=
  match activeTouchId v with
  | Some _ => (v, [])
  | None =>
      match last (touches event) with
      | Some touch =>
          ({| isActive := true; position := position v;
              activeTouchId := Some (identifier touch);
              startPosition := {| x := pageX touch; y := pageY touch |} |},
           [])
      | None => (v, [])
      end
  end.

Definition VirtualJoystick_handleTouchMove (event : GestureResponderEvent)
    (v : VirtualJoystick) : VirtualJoystick * list JoystickCallback :=
  match activeTouchId v with
  | None => (v, [])
  | Some id =>
      match List.find (fun t => bool_decide (identifier t = id))
                      (touches event) with
      | None => (v, [])
      | Some ourTouch =>
          let dx := pageX ourTouch - x (startPosition v) in
          let dy := pageY ourTouch - y (startPosition v) in
          ({| isActive := isActive v; position := knobOffset dx dy;
              activeTouchId := activeTouchId v;
              startPosition := startPosition v |},
           [onMove (joystickData dx dy)])
      end
  end.

Definition VirtualJoystick_handleTouchEnd (event : GestureResponderEvent)
    (v : VirtualJoystick) : VirtualJoystick * list JoystickCallback :=
  let ourTouchEnded :=
    existsb (fun t => bool_decide (Some (identifier t) = activeTouchId v))
            (changedTouches event) in
  if ourTouchEnded then
    ({| isActive := false; position := {| x := 0; y := 0 |};
        activeTouchId := None; startPosition := startPosition v |},
     [onRelease])
  else (v, []).

(** The four touch props of the component's view; [onTouchCancel] is wired
    to [handleTouchEnd]. *)
Inductive JoystickEvent :=
| JoyStart (event : GestureResponderEvent)
| JoyMove (event : GestureResponderEvent)
| JoyEnd (event : GestureResponderEvent)
| JoyCancel (event : GestureResponderEvent).

Definition VirtualJoystick_dispatch (ev : JoystickEvent) (v : VirtualJoystick)
    : VirtualJoystick * list JoystickCallback :=
  match ev with
  | JoyStart e => VirtualJoystick_handleTouchStart e v
  | JoyMove e => VirtualJoystick_handleTouchMove e v
  | JoyEnd e => VirtualJoystick_handleTouchEnd e v
  | JoyCancel e => VirtualJoystick_handleTouchEnd e v
  end.

Fixpoint VirtualJoystick_run (evs : list JoystickEvent) (v : VirtualJoystick)
    : VirtualJoystick * list JoystickCallback :=
  match evs with
  | [] => (v, [])
  | ev :: rest =>
      let '(v1, o1) := VirtualJoystick_dispatch ev v in
      let '(v2, o2) := VirtualJoystick_run rest v1 in
      (v2, o1 ++ o2)
  end.

(** *** [ActionButtons] of [src/components/game/action-buttons.tsx] *)

Record ActionButtons := {
  ActionButtons_pressedButtons : gset ActionType;
  activeTouches : gmap TouchId ActionType
}.

Definition handleButtonTouchStart (buttonType : ActionType)
    (event : GestureResponderEvent) (a : ActionButtons)
    : ActionButtons * list Callback :=
  match last (touches event) with
  | Some touch =>
      ({| ActionButtons_pressedButtons :=
            ActionButtons_pressedButtons a ∪ {[ buttonType ]};
          activeTouches := <[identifier touch := buttonType]>
                             (activeTouches a) |},
       [onButtonPress buttonType])
  | None => (a, [])
  end.

(** The loop over [changedTouches], left by [break] at the first touch of
    this button. *)
Fixpoint handleButtonTouchEndFrom (buttonType : ActionType)
    (changed : list Touch) (a : ActionButtons)
    : ActionButtons * list Callback :=
  match changed with
  | [] => (a, [])
  | touch :: rest =>
      if bool_decide (activeTouches a !! identifier touch = Some buttonType)
      then
        ({| ActionButtons_pressedButtons :=
              ActionButtons_pressedButtons a ∖ {[ buttonType ]};
            activeTouches := delete (identifier touch) (activeTouches a) |},
         [onButtonRelease buttonType])
      else handleButtonTouchEndFrom buttonType rest a
  end.

Definition handleButtonTouchEnd (buttonType : ActionType)
    (event : GestureResponderEvent) (a : ActionButtons)
    : ActionButtons * list Callback :=
  handleButtonTouchEndFrom buttonType (changedTouches event) a.

Definition VirtualJoystick_reachable (v : VirtualJoystick) : Prop :=
  exists evs, v = fst (VirtualJoystick_run evs VirtualJoystick_initial).

Definition VirtualJoystick_released (v : VirtualJoystick) : VirtualJoystick :=
  {| isActive := false; position := {| x := 0; y := 0 |};
     activeTouchId := None; startPosition := startPosition v |}.

Definition ActionButtons_released (buttonType : ActionType) (id : TouchId)
    (a : ActionButtons) : ActionButtons :=
  {| ActionButtons_pressedButtons :=
       ActionButtons_pressedButtons a ∖ {[ buttonType ]};
     activeTouches := delete id (activeTouches a) |}.

(** An event in which [t] is the only touch, and small states to try the
    stand-alone components on. *)
Definition oneTouch (t : Touch) : GestureResponderEvent :=
  {| touches := [t]; changedTouches := [t] |}.

Definition VirtualJoystick_held : VirtualJoystick :=
  {| isActive := true; position := {| x := 0; y := 0 |};
     activeTouchId := Some (NumId 1);
     startPosition := {| x := 5; y := 5 |} |}.

Definition ActionButtons_initial : ActionButtons :=
  {| ActionButtons_pressedButtons := ∅; activeTouches := ∅ |}.

(** The touches an event carries, and the callbacks of the joystick. *)
Definition touchesOf (ev : HostEvent) : list Touch :=
  match ev with
  | TouchStart ts | TouchMove ts | TouchEnd ts | TouchCancel ts => ts
  | Layout _ _ => []
  end.

Definition isJoystickCallback (c : Callback) : bool :=
  match c with
  | onJoystickMove _ | onJoystickRelease => true
  | onButtonPress _ | onButtonRelease _ => false
  end.

(** Two touches entered for jump, and an event that ends both. *)
Definition ActionButtons_twoOnJump : ActionButtons :=
  {| ActionButtons_pressedButtons := {[ jump ]};
     activeTouches := <[NumId 2 := jump]> (<[NumId 1 := jump]> ∅) |}.

Definition bothEnded : GestureResponderEvent :=
  {| touches := [];
     changedTouches := [at_ 1 jumpCentre; at_ 2 jumpCentre] |}.

(** A start of touch 1 and a move of it far to the right. *)
Definition startThenFarMove : list JoystickEvent :=
  [JoyStart (oneTouch (at_ 1 stickCentre));
   JoyMove (oneTouch (at_ 1 {| x := 400; y := 290 |}))].

(** ** The combinators *)

Lemma Rleb_true a b : Rleb a b = true <-> a <= b.
Proof. unfold Rleb. destruct (Rle_dec a b); split; intros; auto; discriminate. Qed.

Lemma Rleb_false a b : Rleb a b = false <-> b < a.
Proof.
  unfold Rleb. destruct (Rle_dec a b); split; intros; auto; try discriminate; lra.
Qed.

Lemma Rgtb_true a b : Rgtb a b = true <-> b < a.
Proof.
  unfold Rgtb. destruct (Rgt_dec a b); split; intros; auto; try discriminate; lra.
Qed.

Lemma Rgtb_false a b : Rgtb a b = false <-> a <= b.
Proof.
  unfold Rgtb. destruct (Rgt_dec a b); split; intros; auto; try discriminate; lra.
Qed.

Lemma truthy_false a : truthy a = false <-> a = 0.
Proof.
  unfold truthy. destruct (Req_dec_T a 0); split; intros; auto; try discriminate; lra.
Qed.

Lemma andThen_skip_l (a : Eff) s : (skip >> a) s = a s.
Proof. unfold andThen, skip. destruct (a s). reflexivity. Qed.

Lemma andThen_eq (a b : Eff) s s1 o1 s2 o2 :
  a s = (s1, o1) -> b s1 = (s2, o2) -> (a >> b) s = (s2, o1 ++ o2).
Proof. intros Ha Hb. unfold andThen. rewrite Ha, Hb. reflexivity. Qed.

Lemma forOf_cons t ts body s :
  forOf (t :: ts) body s = (body t >> forOf ts body) s.
Proof. reflexivity. Qed.

Lemma forOf_app ts1 ts2 body s :
  forOf (ts1 ++ ts2) body s = (forOf ts1 body >> forOf ts2 body) s.
Proof.
  revert s. induction ts1 as [|t ts1 IH]; intros s; simpl.
  - symmetry. apply andThen_skip_l.
  - unfold andThen in *. destruct (body t s) as [s1 o1].
    rewrite IH. destruct (forOf ts1 body s1) as [s2 o2].
    destruct (forOf ts2 body s2) as [s3 o3]. rewrite app_assoc. reflexivity.
Qed.

(** A loop whose every iteration does nothing does nothing. *)
Lemma forOf_idle ts body s :
  (forall t, t ∈ ts -> body t s = (s, [])) -> forOf ts body s = (s, []).
Proof.
  induction ts as [|t ts IH]; intros H; simpl; [reflexivity|].
  unfold andThen. rewrite (H t) by (left).
  rewrite IH by (intros t' Ht'; apply H; right; exact Ht'). reflexivity.
Qed.

(** ** Touches without a binding *)

Lemma touchMove1_unbound r t s :
  joystickTouchId s <> Some (identifier t) -> touchMove1 r t s = (s, []).
Proof.
  intros H. unfold touchMove1.
  rewrite bool_decide_eq_false_2 by congruence. reflexivity.
Qed.

Lemma touchEnd1_unbound r t s :
  unbound s (identifier t) -> touchEnd1 r t s = (s, []).
Proof.
  intros [Hj Hb]. unfold touchEnd1, andThen.
  rewrite bool_decide_eq_false_2 by congruence.
  unfold skip. rewrite Hb. reflexivity.
Qed.

(** C8. A move, end or cancel of a touch that has no binding leaves the
    state as it is and calls no callback: each such touch inside a batch,
    and so a whole batch of such touches. *)
Theorem C8_unbound_touch_ignored (s : Overlay) :
  (forall r t, unbound s (identifier t) ->
     touchMove1 r t s = (s, []) /\ touchEnd1 r t s = (s, [])) /\
  (forall ts, (forall t, t ∈ ts -> unbound s (identifier t)) ->
     dispatch (TouchMove ts) s = (s, []) /\
     dispatch (TouchEnd ts) s = (s, []) /\
     dispatch (TouchCancel ts) s = (s, [])).
Proof.
  split.
  - intros r t Hu. split.
    + apply touchMove1_unbound, Hu.
    + apply touchEnd1_unbound, Hu.
  - intros ts Hts. unfold dispatch, handleTouchMove, handleTouchEnd.
    assert (He : forOf ts (touchEnd1 s) s = (s, [])).
    { apply forOf_idle. intros t Ht. apply touchEnd1_unbound, Hts, Ht. }
    repeat split; try exact He.
    apply forOf_idle. intros t Ht. apply touchMove1_unbound, (Hts t Ht).
Qed.

(** ** Layout *)

(** C9. A layout with a zero width or a zero height changes nothing; any
    other layout stores the new size and leaves the joystick's touch, its
    active flag and knob offset, the pressed buttons and the button table
    as they were.  No callback is called. *)
Theorem C9_layout_frame (w h : R) (s : Overlay) :
  (w = 0 \/ h = 0 -> dispatch (Layout w h) s = (s, [])) /\
  (w <> 0 -> h <> 0 ->
   exists s', dispatch (Layout w h) s = (s', []) /\
     overlaySize s' = {| width := w; height := h |} /\
     buttonTouches s' = buttonTouches s /\
     joystickTouchId s' = joystickTouchId s /\
     joyActive s' = joyActive s /\
     joyPos s' = joyPos s /\
     pressedButtons s' = pressedButtons s).
Proof.
  unfold dispatch, onLayout, truthy. split.
  - intros [-> | ->].
    + destruct (Req_dec_T 0 0) as [_|Hn]; [reflexivity | contradiction Hn; reflexivity].
    + destruct (Req_dec_T w 0); [reflexivity|].
      destruct (Req_dec_T 0 0) as [_|Hn]; [reflexivity | contradiction Hn; reflexivity].
  - intros Hw Hh.
    destruct (Req_dec_T w 0); [contradiction|].
    destruct (Req_dec_T h 0); [contradiction|].
    eexists. split; [reflexivity|]. simpl. repeat split.
Qed.

(** ** Hit tests *)

Lemma sqrt_sq_sum dx dy :
  Math.sqrt (dx * dx + dy * dy) = R_sqrt.sqrt (dx ^ 2 + dy ^ 2).
Proof. unfold Math.sqrt. f_equal. ring. Qed.

Lemma hitTestJoystick_inCircle r px py :
  hitTestJoystick r px py = true <->
  inCircle px py (joystickCenter r) (joystickSize / 2).
Proof.
  unfold hitTestJoystick, inCircle, euclid.
  rewrite sqrt_sq_sum. apply Rleb_true.
Qed.

Lemma hitTestButtonsIn_cons b rest r px py :
  hitTestButtonsIn (b :: rest) r px py =
  if Rleb (euclid px py (x (getButtonCenter r b)) (y (getButtonCenter r b)))
       buttonRadius
  then Some (type b) else hitTestButtonsIn rest r px py.
Proof.
  unfold euclid. cbn [hitTestButtonsIn]. cbv zeta.
  rewrite sqrt_sq_sum. reflexivity.
Qed.

Lemma Rleb_inCircle px py c radius :
  Rleb (euclid px py (x c) (y c)) radius = true <-> inCircle px py c radius.
Proof. apply Rleb_true. Qed.

Lemma Rleb_not_inCircle px py c radius :
  Rleb (euclid px py (x c) (y c)) radius = false <->
  ~ inCircle px py c radius.
Proof. rewrite Rleb_false. unfold inCircle. lra. Qed.

Lemma hitTestButtonsIn_Some bs r px py a :
  hitTestButtonsIn bs r px py = Some a <->
  exists before b after,
    bs = before ++ b :: after /\ type b = a /\
    inCircle px py (getButtonCenter r b) buttonRadius /\
    forall b', b' ∈ before ->
      ~ inCircle px py (getButtonCenter r b') buttonRadius.
Proof.
  induction bs as [|b0 bs IH].
  - split; [discriminate|]. intros (before & b & after & H & _).
    destruct before; discriminate.
  - rewrite hitTestButtonsIn_cons.
    destruct (Rleb _ buttonRadius) eqn:Hb.
    + apply Rleb_inCircle in Hb. split.
      * intros [= <-]. exists [], b0, bs. repeat split; auto.
        intros b' Hin. inversion Hin.
      * intros (before & b & after & Heq & Ht & Hin & Hout).
        destruct before as [|b1 before]; simpl in Heq.
        -- injection Heq as Hb1 _. congruence.
        -- injection Heq as Hb1 _. rewrite Hb1 in Hb.
           exfalso. apply (Hout b1); [left|exact Hb].
    + apply Rleb_not_inCircle in Hb. rewrite IH. split.
      * intros (before & b & after & -> & Ht & Hin & Hout).
        exists (b0 :: before), b, after. repeat split; auto.
        intros b' Hb'. apply elem_of_cons in Hb' as [-> | Hb'];
          [exact Hb | apply Hout; exact Hb'].
      * intros (before & b & after & Heq & Ht & Hin & Hout).
        destruct before as [|b1 before]; simpl in Heq.
        -- injection Heq as Hb1 _. rewrite Hb1 in Hb. contradiction.
        -- injection Heq as _ Hbs. exists before, b, after.
           repeat split; auto. intros b' Hb'. apply Hout. right. exact Hb'.
Qed.


(** ** One touch of a begin batch *)

Lemma touchStart1_joystick r t s :
  joystickTouchId s = None ->
  hitTestJoystick r (pageX t) (pageY t) = true ->
  let dx := pageX t - x (joystickCenter r) in
  let dy := pageY t - y (joystickCenter r) in
  touchStart1 r t s =
    (setJoyPos (knobOffset dx dy)
       (setJoyActive true (setJoystickTouchId (Some (identifier t)) s)),
     [onJoystickMove (joystickData dx dy)]).
Proof.
  intros Hn Hh. unfold touchStart1.
  rewrite bool_decide_eq_true_2 by exact Hn. rewrite Hh. reflexivity.
Qed.

Lemma touchStart1_button r t s btn :
  joystickTouchId s <> None \/
    hitTestJoystick r (pageX t) (pageY t) = false ->
  hitTestButtons r (pageX t) (pageY t) = Some btn ->
  touchStart1 r t s =
    (setPressedButtons (fun prev => prev ∪ {[ btn ]})
       (updButtonTouches (insert (identifier t) btn) s),
     [onButtonPress btn]).
Proof.
  intros Hn Hh. unfold touchStart1.
  assert (bool_decide (joystickTouchId s = None)
          && hitTestJoystick r (pageX t) (pageY t) = false) as ->.
  { destruct Hn as [Hn | ->].
    - rewrite bool_decide_eq_false_2 by exact Hn. reflexivity.
    - apply andb_false_r. }
  rewrite Hh. reflexivity.
Qed.

Lemma touchStart1_miss r t s :
  joystickTouchId s <> None \/
    hitTestJoystick r (pageX t) (pageY t) = false ->
  hitTestButtons r (pageX t) (pageY t) = None ->
  touchStart1 r t s = (s, []).
Proof.
  intros Hn Hh. unfold touchStart1.
  assert (bool_decide (joystickTouchId s = None)
          && hitTestJoystick r (pageX t) (pageY t) = false) as ->.
  { destruct Hn as [Hn | ->].
    - rewrite bool_decide_eq_false_2 by exact Hn. reflexivity.
    - apply andb_false_r. }
  rewrite Hh. reflexivity.
Qed.

(** ** One touch of an end batch *)

Lemma touchEnd1_shape r t s :
  let id := identifier t in
  let rel := bool_decide (Some id = joystickTouchId s) && joyActive r in
  let s1 := if rel then joystickReleased s else s in
  touchEnd1 r t s =
    (match buttonTouches s !! id with
     | Some btn => buttonReleased id btn s1
     | None => s1
     end,
     (if rel then [onJoystickRelease] else []) ++
     match buttonTouches s !! id with
     | Some btn => [onButtonRelease btn]
     | None => []
     end).
Proof.
  cbv zeta. unfold touchEnd1, andThen, releaseJoystick.
  destruct (bool_decide (Some (identifier t) = joystickTouchId s)),
    (joyActive r); simpl;
    destruct (buttonTouches s !! identifier t); reflexivity.
Qed.

Lemma touchEnd1_refs r t s :
  let id := identifier t in
  let rel := bool_decide (Some id = joystickTouchId s) && joyActive r in
  let s' := fst (touchEnd1 r t s) in
  buttonTouches s' = delete id (buttonTouches s) /\
  joystickTouchId s' = (if rel then None else joystickTouchId s) /\
  joyActive s' = (if rel then false else joyActive s) /\
  overlaySize s' = overlaySize s.
Proof.
  cbv zeta. rewrite touchEnd1_shape. cbv zeta.
  destruct (bool_decide _ && joyActive r);
    destruct (buttonTouches s !! identifier t) eqn:Hb; simpl;
    repeat split; try reflexivity;
    symmetry; apply delete_id; exact Hb.
Qed.

Lemma touchMove1_refs r t s :
  let s' := fst (touchMove1 r t s) in
  buttonTouches s' = buttonTouches s /\
  joystickTouchId s' = joystickTouchId s /\
  joyActive s' = joyActive s /\
  pressedButtons s' = pressedButtons s /\
  overlaySize s' = overlaySize s.
Proof.
  cbv zeta. unfold touchMove1.
  destruct (bool_decide _); simpl; repeat split.
Qed.

(** The three ways a began touch can go. *)
Lemma touchStart1_refs r t s :
  let id := identifier t in
  let s' := fst (touchStart1 r t s) in
  overlaySize s' = overlaySize s /\
  ((joystickTouchId s = None /\ joystickTouchId s' = Some id /\
    joyActive s' = true /\ buttonTouches s' = buttonTouches s /\
    pressedButtons s' = pressedButtons s) \/
   (exists btn, joystickTouchId s' = joystickTouchId s /\
    joyActive s' = joyActive s /\
    buttonTouches s' = <[id := btn]> (buttonTouches s) /\
    pressedButtons s' = pressedButtons s ∪ {[ btn ]}) \/
   s' = s).
Proof.
  cbv zeta. unfold touchStart1.
  destruct (bool_decide (joystickTouchId s = None)) eqn:Hn; simpl.
  - apply bool_decide_eq_true in Hn.
    destruct (hitTestJoystick r (pageX t) (pageY t)); simpl.
    + split; [reflexivity|]. left. repeat split. exact Hn.
    + destruct (hitTestButtons r (pageX t) (pageY t)) as [btn|]; simpl.
      * split; [reflexivity|]. right. left. exists btn. repeat split.
      * split; [reflexivity|]. right. right. reflexivity.
  - destruct (hitTestButtons r (pageX t) (pageY t)) as [btn|]; simpl.
    + split; [reflexivity|]. right. left. exists btn. repeat split.
    + split; [reflexivity|]. right. right. reflexivity.
Qed.

(** A property kept by every iteration is kept by the loop. *)
Lemma forOf_keeps (P : Overlay -> Prop) ts body s :
  (forall t s0, t ∈ ts -> P s0 -> P (fst (body t s0))) ->
  P s -> P (fst (forOf ts body s)).
Proof.
  revert s. induction ts as [|t ts IH]; intros s Hstep Hs; simpl.
  - exact Hs.
  - unfold andThen. destruct (body t s) as [s1 o1] eqn:H1.
    specialize (IH s1). destruct (forOf ts body s1) as [s2 o2] eqn:H2.
    simpl in *. apply IH.
    + intros t' s0 Ht'. apply Hstep. right. exact Ht'.
    + change s1 with (fst (s1, o1)). rewrite <- H1. apply Hstep; [left|exact Hs].
Qed.

Lemma dispatch_overlaySize_touch ev s :
  (forall w h, ev <> Layout w h) ->
  overlaySize (fst (dispatch ev s)) = overlaySize s.
Proof.
  intros Hev. destruct ev as [ts|ts|ts|ts|w h]; simpl;
    try (exfalso; apply (Hev w h); reflexivity).
  - unfold handleTouchStart.
    apply (forOf_keeps (fun s0 => overlaySize s0 = overlaySize s)); auto.
    intros t s0 _ <-. apply touchStart1_refs.
  - unfold handleTouchMove.
    apply (forOf_keeps (fun s0 => overlaySize s0 = overlaySize s)); auto.
    intros t s0 _ <-. apply touchMove1_refs.
  - unfold handleTouchEnd.
    apply (forOf_keeps (fun s0 => overlaySize s0 = overlaySize s)); auto.
    intros t s0 _ <-. apply touchEnd1_refs.
  - unfold handleTouchEnd.
    apply (forOf_keeps (fun s0 => overlaySize s0 = overlaySize s)); auto.
    intros t s0 _ <-. apply touchEnd1_refs.
Qed.

(** ** Bindings are kept *)

Lemma binding_eq s s' id :
  joystickTouchId s' = joystickTouchId s ->
  buttonTouches s' !! id = buttonTouches s !! id ->
  binding s' id = binding s id.
Proof. unfold binding. intros -> ->. reflexivity. Qed.

Lemma binding_None s id : binding s id = None <-> unbound s id.
Proof.
  unfold binding, unbound. case_bool_decide as Hj.
  - split; [discriminate | intros [H _]; contradiction].
  - destruct (buttonTouches s !! id); simpl; split;
      try discriminate; auto.
    intros [_ H]. discriminate.
Qed.

Lemma touchStart1_binding_other r t s id :
  identifier t <> id ->
  binding (fst (touchStart1 r t s)) id = binding s id.
Proof.
  intros Hne.
  destruct (touchStart1_refs r t s) as [_ H]. cbv zeta in H.
  destruct H as [(Hn & Hj & _ & Hb & _) | [(btn & Hj & _ & Hb & _) | ->]].
  - unfold binding. rewrite Hj, Hn, Hb.
    rewrite !bool_decide_eq_false_2 by congruence. reflexivity.
  - apply binding_eq; [exact Hj|]. rewrite Hb.
    apply lookup_insert_ne. exact Hne.
  - reflexivity.
Qed.

Lemma touchMove1_binding r t s id :
  binding (fst (touchMove1 r t s)) id = binding s id.
Proof.
  destruct (touchMove1_refs r t s) as (Hb & Hj & _). cbv zeta in *.
  apply binding_eq; [exact Hj | rewrite Hb; reflexivity].
Qed.

Lemma touchEnd1_binding r t s id :
  binding (fst (touchEnd1 r t s)) id = binding s id \/
  (identifier t = id /\ binding (fst (touchEnd1 r t s)) id = None).
Proof.
  destruct (touchEnd1_refs r t s) as (Hb & Hj & _). cbv zeta in *.
  unfold binding. rewrite Hb, Hj.
  destruct (decide (identifier t = id)) as [<- | Hne].
  - rewrite lookup_delete_eq.
    destruct (joyActive r); rewrite ?andb_true_r, ?andb_false_r;
      repeat case_bool_decide; simplify_eq; simpl; auto; congruence.
  - rewrite lookup_delete_ne by exact Hne. left.
    destruct (joyActive r); rewrite ?andb_true_r, ?andb_false_r;
      repeat case_bool_decide; simplify_eq; simpl; auto; congruence.
Qed.

Lemma handleTouchEnd_binding r ts s id :
  let s' := fst (handleTouchEnd r ts s) in
  binding s' id = binding s id \/ (id ∈ ids ts /\ binding s' id = None).
Proof.
  cbv zeta. unfold handleTouchEnd.
  apply (forOf_keeps (fun s0 => binding s0 id = binding s id \/
                                (id ∈ ids ts /\ binding s0 id = None))).
  - intros t s0 Ht Hs0.
    destruct (touchEnd1_binding r t s0 id) as [Heq | [Hid Hn]].
    + rewrite Heq. exact Hs0.
    + right. split; [|exact Hn]. subst id. unfold ids.
      apply list_elem_of_fmap. exists t. auto.
  - left. reflexivity.
Qed.

Lemma dispatch_binding ev s id :
  ~ beginsTouch ev id ->
  binding (fst (dispatch ev s)) id = binding s id \/
  (endsTouch ev id /\ binding (fst (dispatch ev s)) id = None).
Proof.
  intros Hnb. destruct ev as [ts|ts|ts|ts|w h]; simpl in *.
  - left. unfold handleTouchStart.
    apply (forOf_keeps (fun s0 => binding s0 id = binding s id)); auto.
    intros t s0 Ht <-. apply touchStart1_binding_other.
    intros <-. apply Hnb. unfold ids. apply list_elem_of_fmap. exists t. auto.
  - left. unfold handleTouchMove.
    apply (forOf_keeps (fun s0 => binding s0 id = binding s id)); auto.
    intros t s0 _ <-. apply touchMove1_binding.
  - apply handleTouchEnd_binding.
  - apply handleTouchEnd_binding.
  - left. unfold onLayout. destruct (truthy w && truthy h); reflexivity.
Qed.

Lemma runEvents_binding evs s id :
  noBegin evs id ->
  binding (fst (runEvents evs s)) id = binding s id \/
  binding (fst (runEvents evs s)) id = None.
Proof.
  revert s. induction evs as [|ev evs IH]; intros s Hnb; simpl.
  - left. reflexivity.
  - unfold andThen. destruct (dispatch ev s) as [s1 o1] eqn:H1.
    assert (Hnb' : noBegin evs id).
    { intros e He. apply Hnb. right. exact He. }
    specialize (IH s1 Hnb').
    destruct (runEvents evs s1) as [s2 o2]. simpl in *.
    destruct IH as [IH | IH]; [|right; exact IH].
    rewrite IH.
    pose proof (dispatch_binding ev s id (Hnb ev ltac:(left))) as Hd.
    rewrite H1 in Hd. simpl in Hd.
    destruct Hd as [Hd | [_ Hd]]; [left | right]; exact Hd.
Qed.

(** C7. While a touch is down the host begins no other touch with its
    identifier.  Under any event that does not begin the identifier again,
    the control of a touch stays the one it has, or the touch loses its
    control, which happens only when the event ends or cancels it; a touch
    without a control stays without one.  So along any run of such events a
    touch that drives the joystick or a button never comes to drive another
    control, wherever it moves. *)
Theorem C7_no_reclassification (s : Overlay) (id : TouchId) :
  (forall ev, ~ beginsTouch ev id ->
     binding (fst (dispatch ev s)) id = binding s id \/
     (endsTouch ev id /\ binding (fst (dispatch ev s)) id = None)) /\
  (forall ts, binding (fst (dispatch (TouchMove ts) s)) id = binding s id) /\
  (forall evs c, noBegin evs id -> binding s id = Some c ->
     binding (fst (runEvents evs s)) id = Some c \/
     binding (fst (runEvents evs s)) id = None) /\
  (forall evs, noBegin evs id -> binding s id = None ->
     binding (fst (runEvents evs s)) id = None).
Proof.
  repeat split.
  - intros ev Hev. apply dispatch_binding, Hev.
  - intros ts.
    destruct (dispatch_binding (TouchMove ts) s id) as [H | [[] _]];
      [intros [] | exact H].
  - intros evs c Hnb Hc. rewrite <- Hc. apply runEvents_binding, Hnb.
  - intros evs Hnb Hn.
    destruct (runEvents_binding evs s id Hnb) as [H | H]; congruence.
Qed.

(** ** [joyActive] follows the joystick's touch *)

Lemma touchStart1_sync r t s :
  activeInSync s -> activeInSync (fst (touchStart1 r t s)).
Proof.
  unfold activeInSync. intros Hs.
  destruct (touchStart1_refs r t s) as [_ H]. cbv zeta in H.
  destruct H as [(_ & Hj & Ha & _) | [(btn & Hj & Ha & _) | ->]].
  - rewrite Hj, Ha. split; [discriminate | reflexivity].
  - rewrite Hj, Ha. exact Hs.
  - exact Hs.
Qed.

Lemma touchEnd1_sync r t s :
  activeInSync s /\ renderKnows r s ->
  activeInSync (fst (touchEnd1 r t s)) /\
  renderKnows r (fst (touchEnd1 r t s)).
Proof.
  unfold activeInSync, renderKnows. intros [Hs Hr].
  destruct (touchEnd1_refs r t s) as (_ & Hj & Ha & _). cbv zeta in *.
  rewrite Hj, Ha.
  destruct (bool_decide (Some (identifier t) = joystickTouchId s)) eqn:He;
    simpl; [|auto].
  apply bool_decide_eq_true in He.
  rewrite Hr by (rewrite <- He; discriminate).
  split; [|intros H; contradiction].
  split; [discriminate | intros H; contradiction].
Qed.

Lemma dispatch_sync ev s :
  activeInSync s -> activeInSync (fst (dispatch ev s)).
Proof.
  intros Hs. destruct ev as [ts|ts|ts|ts|w h]; simpl.
  - unfold handleTouchStart. apply forOf_keeps; [|exact Hs].
    intros t s0 _. apply touchStart1_sync.
  - unfold handleTouchMove. apply forOf_keeps; [|exact Hs].
    intros t s0 _ H0.
    destruct (touchMove1_refs s t s0) as (_ & Hj & Ha & _). cbv zeta in *.
    unfold activeInSync. rewrite Hj, Ha. exact H0.
  - unfold handleTouchEnd.
    apply (forOf_keeps (fun s0 => activeInSync s0 /\ renderKnows s s0)).
    + intros t s0 _. apply touchEnd1_sync.
    + split; [exact Hs|]. intros H. apply Hs, H.
  - unfold handleTouchEnd.
    apply (forOf_keeps (fun s0 => activeInSync s0 /\ renderKnows s s0)).
    + intros t s0 _. apply touchEnd1_sync.
    + split; [exact Hs|]. intros H. apply Hs, H.
  - unfold onLayout. destruct (truthy w && truthy h); exact Hs.
Qed.

Lemma runEvents_sync evs s :
  activeInSync s -> activeInSync (fst (runEvents evs s)).
Proof.
  revert s. induction evs as [|ev evs IH]; intros s Hs; simpl; [exact Hs|].
  unfold andThen. pose proof (dispatch_sync ev s Hs) as H1.
  destruct (dispatch ev s) as [s1 o1]. specialize (IH s1 H1).
  destruct (runEvents evs s1) as [s2 o2]. exact IH.
Qed.

Lemma reachable_sync s : reachable s -> activeInSync s.
Proof.
  intros (window & evs & ->). apply runEvents_sync.
  unfold activeInSync, initial. simpl. split; [discriminate|].
  intros H. contradiction.
Qed.

(** Within an end batch run from the render [s], the closure knows the
    joystick's touch at every iteration. *)
Lemma handleTouchEnd_renderKnows s ts :
  activeInSync s -> renderKnows s (fst (handleTouchEnd s ts s)).
Proof.
  intros Hs. unfold handleTouchEnd.
  apply (forOf_keeps (fun s0 => activeInSync s0 /\ renderKnows s s0)).
  - intros t s0 _. apply touchEnd1_sync.
  - split; [exact Hs|]. intros H. apply Hs, H.
Qed.

(** ** Release *)

Lemma touchEnd1_unbinds r t s :
  renderKnows r s -> unbound (fst (touchEnd1 r t s)) (identifier t).
Proof.
  unfold renderKnows, unbound. intros Hr.
  destruct (touchEnd1_refs r t s) as (Hb & Hj & _). cbv zeta in *.
  rewrite Hb, Hj. split; [|apply lookup_delete_eq].
  destruct (bool_decide (Some (identifier t) = joystickTouchId s)) eqn:He.
  - apply bool_decide_eq_true in He.
    rewrite Hr by (rewrite <- He; discriminate). simpl. discriminate.
  - apply bool_decide_eq_false in He. simpl. congruence.
Qed.

Lemma touchEnd1_keeps_unbound r t s id :
  unbound s id -> unbound (fst (touchEnd1 r t s)) id.
Proof.
  rewrite <- !binding_None. intros Hn.
  destruct (touchEnd1_binding r t s id) as [H | [_ H]]; congruence.
Qed.

Lemma touchEnd1_keeps_renderKnows r t s :
  renderKnows r s -> renderKnows r (fst (touchEnd1 r t s)).
Proof.
  unfold renderKnows. intros Hr.
  destruct (touchEnd1_refs r t s) as (_ & Hj & _). cbv zeta in *.
  rewrite Hj. destruct (_ && _); [intros H; contradiction | exact Hr].
Qed.

Lemma handleTouchEnd_unbinds r ts s :
  renderKnows r s ->
  forall t, t ∈ ts -> unbound (fst (handleTouchEnd r ts s)) (identifier t).
Proof.
  unfold handleTouchEnd. revert s.
  induction ts as [|t0 ts IH]; intros s Hr t Ht; [inversion Ht|].
  simpl. unfold andThen.
  pose proof (touchEnd1_unbinds r t0 s Hr) as Hu.
  pose proof (touchEnd1_keeps_renderKnows r t0 s Hr) as Hr1.
  destruct (touchEnd1 r t0 s) as [s1 o1]. simpl in Hu, Hr1.
  specialize (IH s1 Hr1).
  apply elem_of_cons in Ht as [-> | Hin].
  - pose proof (forOf_keeps (fun s0 => unbound s0 (identifier t0)) ts
                  (touchEnd1 r) s1) as Hk.
    destruct (forOf ts (touchEnd1 r) s1). apply Hk; [|exact Hu].
    intros t' s0 _. apply touchEnd1_keeps_unbound.
  - specialize (IH t Hin). destruct (forOf ts (touchEnd1 r) s1). exact IH.
Qed.

(** C6. In an end batch run from a reachable state, a touch that is the
    joystick's touch frees the joystick: its touch is forgotten, [joyActive]
    is cleared, the knob offset is reset to (0,0) and [onJoystickRelease] is
    called; a touch that has a button leaves the button table, its button is
    taken out of the pressed set and [onButtonRelease] is called with that
    button.  These are the only callbacks of the touch.  A cancel batch runs
    the same handler.  After the batch no touch of the batch has a
    control. *)
Theorem C6_release_on_end_or_cancel (s s1 : Overlay) (o1 : list Callback)
    (before after : list Touch) (t : Touch) :
  reachable s ->
  handleTouchEnd s before s = (s1, o1) ->
  let id := identifier t in
  let ts := before ++ t :: after in
  exists s2 o2 s3 o3,
    touchEnd1 s t s1 = (s2, o2) /\
    handleTouchEnd s after s2 = (s3, o3) /\
    dispatch (TouchEnd ts) s = (s3, o1 ++ o2 ++ o3) /\
    dispatch (TouchCancel ts) s = dispatch (TouchEnd ts) s /\
    o2 = (if decide (joystickTouchId s1 = Some id)
          then [onJoystickRelease] else []) ++
         match buttonTouches s1 !! id with
         | Some btn => [onButtonRelease btn]
         | None => []
         end /\
    unbound s2 id /\
    (joystickTouchId s1 = Some id ->
       joystickTouchId s2 = None /\ joyActive s2 = false /\
       joyPos s2 = {| x := 0; y := 0 |}) /\
    (forall btn, buttonTouches s1 !! id = Some btn ->
       btn ∉ pressedButtons s2) /\
    (forall t', t' ∈ ts -> unbound s3 (identifier t')).
Proof.
  intros Hreach Hpre id ts.
  pose proof (reachable_sync s Hreach) as Hsync.
  assert (Hrk : renderKnows s s1).
  { pose proof (handleTouchEnd_renderKnows s before Hsync) as H.
    rewrite Hpre in H. exact H. }
  pose proof (touchEnd1_shape s t s1) as Hshape. cbv zeta in Hshape.
  fold id in Hshape.
  pose proof (touchEnd1_unbinds s t s1 Hrk) as Hunb. fold id in Hunb.
  destruct (touchEnd1 s t s1) as [s2 o2] eqn:H2. simpl in Hunb.
  destruct (handleTouchEnd s after s2) as [s3 o3] eqn:H3.
  exists s2, o2, s3, o3.
  assert (Hrel : bool_decide (Some id = joystickTouchId s1) && joyActive s =
                 if decide (joystickTouchId s1 = Some id) then true else false).
  { destruct (decide (joystickTouchId s1 = Some id)) as [Hj | Hj].
    - rewrite bool_decide_eq_true_2 by congruence.
      rewrite Hrk by (rewrite Hj; discriminate). reflexivity.
    - rewrite bool_decide_eq_false_2 by congruence. reflexivity. }
  rewrite Hrel in Hshape. injection Hshape as Hs2 Ho2.
  split; [reflexivity|]. split; [exact H3|].
  split.
  { simpl. unfold handleTouchEnd in *. unfold ts. rewrite forOf_app.
    apply (andThen_eq _ _ _ _ _ _ _ Hpre).
    rewrite forOf_cons. apply (andThen_eq _ _ _ _ _ _ _ H2). exact H3. }
  split; [reflexivity|].
  split.
  { rewrite Ho2. destruct (decide (joystickTouchId s1 = Some id)); reflexivity. }
  split; [exact Hunb|].
  split.
  { intros Hj. rewrite Hs2.
    destruct (decide (joystickTouchId s1 = Some id)); [|contradiction].
    destruct (buttonTouches s1 !! id); simpl; repeat split. }
  split.
  { intros btn Hb. rewrite Hs2, Hb.
    destruct (decide (joystickTouchId s1 = Some id)); simpl;
      rewrite elem_of_difference, elem_of_singleton; intros [_ H]; auto. }
  intros t' Ht'.
  pose proof (handleTouchEnd_unbinds s ts s) as Hall.
  assert (Hd : handleTouchEnd s ts s = (s3, o1 ++ o2 ++ o3)).
  { unfold handleTouchEnd in *. unfold ts. rewrite forOf_app.
    apply (andThen_eq _ _ _ _ _ _ _ Hpre).
    rewrite forOf_cons. apply (andThen_eq _ _ _ _ _ _ _ H2). exact H3. }
  rewrite Hd in Hall. apply Hall; [|exact Ht'].
  intros H. apply Hsync, H.
Qed.

(** ** Exclusive bindings *)

Lemma unbound_not_bound s id : unbound s id <-> ~ bound s id.
Proof.
  unfold unbound, bound. split.
  - intros [Hj Hb] [H | [b H]]; congruence.
  - intros H. split.
    + intros Hj. apply H. left. exact Hj.
    + destruct (buttonTouches s !! id) eqn:Hb; [|reflexivity].
      exfalso. apply H. right. eauto.
Qed.

Lemma tidy_mono live live' s :
  (forall i, i ∈ live -> i ∈ live') -> tidy live s -> tidy live' s.
Proof. intros Hsub [Hb He]. split; [|exact He]. intros id Hid. auto. Qed.

Lemma tidy_refs live s s' :
  joystickTouchId s' = joystickTouchId s ->
  buttonTouches s' = buttonTouches s ->
  tidy live s -> tidy live s'.
Proof.
  unfold tidy, bound, exclusive. intros -> ->. auto.
Qed.

Lemma touchStart1_tidy r t s live :
  identifier t ∉ live -> tidy live s ->
  tidy (live ∪ {[ identifier t ]}) (fst (touchStart1 r t s)).
Proof.
  intros Hfresh [Hb He].
  assert (Hnj : joystickTouchId s <> Some (identifier t)).
  { intros H. apply Hfresh, Hb. left. exact H. }
  assert (Hnb : buttonTouches s !! identifier t = None).
  { destruct (buttonTouches s !! identifier t) eqn:H; [|reflexivity].
    exfalso. apply Hfresh, Hb. right. eauto. }
  destruct (touchStart1_refs r t s) as [_ H]. cbv zeta in H.
  destruct H as [(Hn & Hj & _ & Hbt & _) | [(btn & Hj & _ & Hbt & _) | ->]].
  - split.
    + intros id [Hid | Hid].
      * rewrite Hj in Hid. injection Hid as <-. set_solver.
      * rewrite Hbt in Hid. apply elem_of_union_l, Hb. right. exact Hid.
    + intros id [Hid1 Hid2]. rewrite Hj in Hid1. injection Hid1 as <-.
      rewrite Hbt, Hnb in Hid2. destruct Hid2 as [? ?]. discriminate.
  - split.
    + intros id [Hid | Hid].
      * rewrite Hj in Hid. apply elem_of_union_l, Hb. left. exact Hid.
      * rewrite Hbt in Hid. destruct (decide (identifier t = id)) as [<-|Hne].
        -- set_solver.
        -- rewrite lookup_insert_ne in Hid by exact Hne.
           apply elem_of_union_l, Hb. right. exact Hid.
    + intros id [Hid1 Hid2]. rewrite Hj in Hid1. rewrite Hbt in Hid2.
      destruct (decide (identifier t = id)) as [<-|Hne]; [contradiction|].
      rewrite lookup_insert_ne in Hid2 by exact Hne.
      apply (He id). split; assumption.
  - apply (tidy_mono live); [set_solver | split; assumption].
Qed.

Lemma handleTouchStart_tidy r ts s live :
  NoDup (ids ts) -> (forall i, i ∈ ids ts -> i ∉ live) -> tidy live s ->
  tidy (live ∪ list_to_set (ids ts)) (fst (handleTouchStart r ts s)).
Proof.
  unfold handleTouchStart. revert s live.
  induction ts as [|t ts IH]; intros s live Hnd Hfresh Ht; simpl.
  - apply (tidy_mono live); [set_solver | exact Ht].
  - simpl in Hnd. apply NoDup_cons in Hnd as [Hnin Hnd].
    unfold andThen.
    pose proof (touchStart1_tidy r t s live) as H1.
    destruct (touchStart1 r t s) as [s1 o1]. simpl in H1.
    specialize (IH s1 (live ∪ {[ identifier t ]}) Hnd).
    destruct (forOf ts (touchStart1 r) s1) as [s2 o2]. simpl in *.
    apply (tidy_mono (live ∪ {[ identifier t ]} ∪ list_to_set (ids ts))).
    { intros i. rewrite !elem_of_union. tauto. }
    apply IH.
    + intros i Hi. specialize (Hfresh i (list_elem_of_further _ _ _ Hi)).
      rewrite elem_of_union, elem_of_singleton. intros [Hl | ->]; auto.
    + apply H1; [|exact Ht]. apply Hfresh. left.
Qed.

Lemma touchEnd1_bound r t s id :
  bound (fst (touchEnd1 r t s)) id -> bound s id.
Proof.
  intros H. destruct (decide (bound s id)) as [Hb | Hn]; [exact Hb|].
  exfalso. apply unbound_not_bound in Hn.
  apply (touchEnd1_keeps_unbound r t) in Hn.
  apply unbound_not_bound in Hn. contradiction.
Qed.

Lemma touchEnd1_exclusive r t s :
  exclusive s -> exclusive (fst (touchEnd1 r t s)).
Proof.
  unfold exclusive. intros He id [Hj Hb].
  destruct (touchEnd1_refs r t s) as (Hbt & Hjt & _). cbv zeta in *.
  rewrite Hjt in Hj. rewrite Hbt in Hb. apply (He id). split.
  - destruct (_ && _); [discriminate | exact Hj].
  - destruct (decide (identifier t = id)) as [<-|Hne].
    + rewrite lookup_delete_eq in Hb. destruct Hb. discriminate.
    + rewrite lookup_delete_ne in Hb by exact Hne. exact Hb.
Qed.

Lemma handleTouchEnd_tidy r ts s live :
  renderKnows r s -> tidy live s ->
  tidy (live ∖ list_to_set (ids ts)) (fst (handleTouchEnd r ts s)).
Proof.
  intros Hr [Hb He].
  pose proof (handleTouchEnd_unbinds r ts s Hr) as Hu.
  assert (Hk : (forall id, bound (fst (handleTouchEnd r ts s)) id ->
                           bound s id) /\
               exclusive (fst (handleTouchEnd r ts s))).
  { unfold handleTouchEnd.
    apply (forOf_keeps (fun s0 => (forall id, bound s0 id -> bound s id) /\
                                  exclusive s0)).
    - intros t s0 _ [H1 H2]. split.
      + intros id Hid. apply H1. apply (touchEnd1_bound r t). exact Hid.
      + apply touchEnd1_exclusive, H2.
    - split; [auto | exact He]. }
  destruct Hk as [Hk1 Hk2]. split; [|exact Hk2].
  intros id Hid. apply elem_of_difference. split.
  - apply Hb, Hk1, Hid.
  - rewrite elem_of_list_to_set. unfold ids. rewrite list_elem_of_fmap.
    intros (t & -> & Ht). specialize (Hu t Ht).
    apply unbound_not_bound in Hu. contradiction.
Qed.

Lemma dispatch_tidy ev rest s live :
  hostOk live (ev :: rest) -> activeInSync s -> tidy live s ->
  exists live', hostOk live' rest /\ tidy live' (fst (dispatch ev s)).
Proof.
  intros Hok Hs Ht. destruct ev as [ts|ts|ts|ts|w h]; simpl in *.
  - destruct Hok as (Hnd & Hfresh & Hok). eexists. split; [exact Hok|].
    apply handleTouchStart_tidy; assumption.
  - exists live. split; [exact Hok|]. unfold handleTouchMove.
    apply (forOf_keeps (tidy live)); [|exact Ht].
    intros t s0 _ H0.
    destruct (touchMove1_refs s t s0) as (Hb & Hj & _). cbv zeta in *.
    apply (tidy_refs live s0); assumption.
  - eexists. split; [exact Hok|]. apply handleTouchEnd_tidy; [|exact Ht].
    intros H. apply Hs, H.
  - eexists. split; [exact Hok|]. apply handleTouchEnd_tidy; [|exact Ht].
    intros H. apply Hs, H.
  - exists live. split; [exact Hok|]. unfold onLayout.
    destruct (truthy w && truthy h); exact Ht.
Qed.

Lemma runEvents_tidy evs s live :
  hostOk live evs -> activeInSync s -> tidy live s ->
  exists live', tidy live' (fst (runEvents evs s)).
Proof.
  revert s live. induction evs as [|ev evs IH]; intros s live Hok Hs Ht.
  - exists live. exact Ht.
  - simpl. unfold andThen.
    destruct (dispatch_tidy ev evs s live Hok Hs Ht) as (live1 & Hok1 & Ht1).
    pose proof (dispatch_sync ev s Hs) as Hs1.
    destruct (dispatch ev s) as [s1 o1]. simpl in *.
    destruct (IH s1 live1 Hok1 Hs1 Ht1) as (live2 & Ht2).
    destruct (runEvents evs s1) as [s2 o2]. exists live2. exact Ht2.
Qed.

Lemma initial_tidy window : tidy ∅ (initial window).
Proof.
  split.
  - intros id [H | [b H]]; simpl in H; [discriminate|].
    rewrite lookup_empty in H. discriminate.
  - intros id [H _]. simpl in H. discriminate.
Qed.

Lemma binding_Joystick s id :
  binding s id = Some Joystick <-> joystickTouchId s = Some id.
Proof.
  unfold binding. case_bool_decide as H.
  - split; auto.
  - split; [|contradiction].
    destruct (buttonTouches s !! id); simpl; discriminate.
Qed.

(** ** Distances, angles and remainders *)

Lemma sum_sq_nonneg (a b : R) : 0 <= a ^ 2 + b ^ 2.
Proof. nra. Qed.

Lemma euclid_nonneg px py cx cy : 0 <= euclid px py cx cy.
Proof. apply sqrt_pos. Qed.

Lemma euclid_center cx cy : euclid cx cy cx cy = 0.
Proof.
  unfold euclid. replace ((cx - cx) ^ 2 + (cy - cy) ^ 2) with 0 by ring.
  apply sqrt_0.
Qed.

Lemma euclid_le_sq px py cx cy radius :
  0 <= radius ->
  euclid px py cx cy <= radius <->
  (px - cx) ^ 2 + (py - cy) ^ 2 <= radius ^ 2.
Proof.
  intros Hr. unfold euclid.
  rewrite <- (sqrt_pow2 radius Hr) at 1. split.
  - intros H. apply sqrt_le_0 in H; [exact H | apply sum_sq_nonneg | nra].
  - intros H. apply sqrt_le_1_alt. exact H.
Qed.

Lemma euclid_gt_sq px py cx cy radius :
  0 <= radius ->
  radius < euclid px py cx cy <->
  radius ^ 2 < (px - cx) ^ 2 + (py - cy) ^ 2.
Proof.
  intros Hr. pose proof (euclid_le_sq px py cx cy radius Hr) as H.
  split; intros H1.
  - apply Rnot_le_lt. intros H2. apply H in H2. lra.
  - apply Rnot_le_lt. intros H2. apply H in H2. lra.
Qed.

Lemma clamp_max_min v :
  Math.max (-1) (Math.min 1 v) = clamp v (-1) 1.
Proof.
  unfold Math.max, Math.min, clamp, Rmin.
  destruct (Rle_dec 1 v); unfold Rmax;
    destruct (Rle_dec _ _); destruct (Rlt_dec v (-1));
    try destruct (Rlt_dec 1 v); lra.
Qed.

Lemma clamp_range v : -1 <= clamp v (-1) 1 <= 1.
Proof.
  unfold clamp.
  repeat match goal with
         | |- context [Rlt_dec ?a ?b] => destruct (Rlt_dec a b)
         end; lra.
Qed.

Lemma Rmod_range a b : 0 < b -> 0 <= Rmod a b < b.
Proof.
  intros Hb. unfold Rmod.
  destruct (base_Int_part (a / b)) as [H1 H2].
  set (k := IZR (Int_part (a / b))) in *.
  assert (Ha : a = a / b * b) by (field; lra).
  set (q := a / b) in *. rewrite Ha. nra.
Qed.

Lemma js_rem_Rmod a b : 0 <= a -> 0 < b -> js_rem a b = Rmod a b.
Proof.
  intros Ha Hb. unfold js_rem, Rmod, Rtrunc.
  destruct (Rle_dec 0 (a / b)) as [_ | Hn]; [reflexivity|].
  exfalso. apply Hn. apply Rmult_le_pos; [exact Ha|].
  left. apply Rinv_0_lt_compat, Hb.
Qed.

Lemma atan_nonpos t : t <= 0 -> atan t <= 0.
Proof.
  intros [Ht | ->]; [|rewrite atan_0; lra].
  left. rewrite <- atan_0. apply atan_increasing, Ht.
Qed.

Lemma atan2_range dy dx : - PI < Math.atan2 dy dx <= PI.
Proof.
  pose proof PI_RGT_0 as Hpi. unfold Math.atan2, Math.PI.
  pose proof (atan_bound (dy / dx)) as Hb.
  destruct (Rlt_dec 0 dx) as [Hx | Hx]; [lra|].
  destruct (Rlt_dec dx 0) as [Hx' | Hx'].
  - assert (Hi : / dx < 0) by (apply Rinv_lt_0_compat, Hx').
    destruct (Rle_dec 0 dy) as [Hy | Hy].
    + assert (Ht : dy / dx <= 0) by (unfold Rdiv; nra).
      pose proof (atan_nonpos _ Ht). lra.
    + assert (Ht : 0 < dy / dx) by (unfold Rdiv; nra).
      pose proof (atan_increasing _ _ Ht) as Hinc. rewrite atan_0 in Hinc.
      lra.
  - destruct (Rlt_dec 0 dy); [lra|]. destruct (Rlt_dec dy 0); lra.
Qed.

Lemma degrees_range a : - PI < a <= PI -> -180 < degrees a <= 180.
Proof.
  pose proof PI_RGT_0 as Hpi. intros [H1 H2]. unfold degrees.
  assert (Hi : 0 < / PI) by (apply Rinv_0_lt_compat; lra).
  assert (He : PI * / PI = 1) by (field; lra).
  unfold Rdiv. split; nra.
Qed.

Lemma sqrt_one_plus_sq dx dy a :
  0 < a -> a * a = dx * dx ->
  sqrt (1 + (dy / dx)²) = sqrt (dx * dx + dy * dy) / a.
Proof.
  intros Ha Haa.
  assert (Hdx : dx <> 0) by nra.
  assert (Hd : 0 <= dx * dx + dy * dy) by nra.
  apply sqrt_lem_1.
  - unfold Rsqr. nra.
  - apply Rmult_le_pos; [apply sqrt_pos|]. left. apply Rinv_0_lt_compat, Ha.
  - unfold Rdiv at 1 2.
    replace (sqrt (dx * dx + dy * dy) * / a * (sqrt (dx * dx + dy * dy) * / a))
      with (sqrt (dx * dx + dy * dy) * sqrt (dx * dx + dy * dy) * / (a * a))
      by (field; lra).
    rewrite sqrt_sqrt by exact Hd. rewrite Haa. unfold Rsqr. field. exact Hdx.
Qed.

(** The cosine and the sine of [atan2 dy dx] are the coordinates of the
    direction of the offset. *)
Lemma cos_sin_atan2 dy dx :
  let d := Math.sqrt (dx * dx + dy * dy) in
  0 < d ->
  Math.cos (Math.atan2 dy dx) = dx / d /\
  Math.sin (Math.atan2 dy dx) = dy / d.
Proof.
  cbv zeta. unfold Math.sqrt, Math.cos, Math.sin, Math.atan2, Math.PI.
  intros Hd.
  set (d := sqrt (dx * dx + dy * dy)) in *.
  destruct (Rlt_dec 0 dx) as [Hx | Hx].
  - rewrite cos_atan, sin_atan.
    rewrite (sqrt_one_plus_sq dx dy dx Hx eq_refl). fold d.
    split; field; lra.
  - destruct (Rlt_dec dx 0) as [Hx' | Hx'].
    + assert (Hs : sqrt (1 + (dy / dx)²) = d / (- dx)).
      { apply sqrt_one_plus_sq; [lra | ring]. }
      destruct (Rle_dec 0 dy) as [Hy | Hy].
      * rewrite neg_cos, neg_sin, cos_atan, sin_atan, Hs.
        split; field; lra.
      * rewrite cos_minus, sin_minus, cos_PI, sin_PI, cos_atan, sin_atan, Hs.
        split; field; lra.
    + assert (Hx0 : dx = 0) by lra. subst dx.
      assert (Hdd : d = sqrt (dy * dy)) by (unfold d; f_equal; ring).
      destruct (Rlt_dec 0 dy) as [Hy | Hy].
      * rewrite cos_PI2, sin_PI2.
        rewrite Hdd, sqrt_square by lra. split; field; lra.
      * destruct (Rlt_dec dy 0) as [Hy' | Hy'].
        -- rewrite cos_neg, sin_neg, cos_PI2, sin_PI2.
           replace (dy * dy) with ((- dy) * (- dy)) in Hdd by ring.
           rewrite Hdd, sqrt_square by lra. split; field; lra.
        -- exfalso. assert (dy = 0) by lra. subst dy.
           rewrite Hdd in Hd. rewrite Rmult_0_l, sqrt_0 in Hd. lra.
Qed.

(** ** The joystick vector *)

Lemma touchMove1_joystick r t s :
  joystickTouchId s = Some (identifier t) ->
  touchMove1 r t s =
    (setJoyPos (knobOffset (pageX t - x (joystickCenter r))
                           (pageY t - y (joystickCenter r))) s,
     [onJoystickMove (dataAt r t)]).
Proof.
  intros Hj. unfold touchMove1.
  rewrite bool_decide_eq_true_2 by congruence. reflexivity.
Qed.

Lemma handleTouchMove_calls r ts s :
  snd (handleTouchMove r ts s) =
  (fun t => onJoystickMove (dataAt r t)) <$> joystickMoves s ts.
Proof.
  unfold handleTouchMove, joystickMoves. revert s.
  induction ts as [|t ts IH]; intros s; [reflexivity|].
  simpl. unfold andThen.
  pose proof (touchMove1_refs r t s) as (_ & Hj & _). cbv zeta in Hj.
  destruct (decide (Some (identifier t) = joystickTouchId s)) as [He | He].
  - rewrite filter_cons_True by exact He.
    rewrite touchMove1_joystick in * by congruence. simpl in *.
    specialize (IH (setJoyPos (knobOffset (pageX t - x (joystickCenter r))
                                 (pageY t - y (joystickCenter r))) s)).
    destruct (forOf ts (touchMove1 r) _) as [s2 o2]. simpl in *.
    rewrite IH. reflexivity.
  - rewrite filter_cons_False by exact He.
    rewrite touchMove1_unbound by congruence.
    specialize (IH s). destruct (forOf ts (touchMove1 r) s) as [s2 o2].
    simpl in *. exact IH.
Qed.

Lemma joystickData_fields dx dy :
  let d := joystickData dx dy in
  JoystickData.x d = clamp (dx / maxDistance) (-1) 1 /\
  JoystickData.y d = clamp (dy / maxDistance) (-1) 1 /\
  JoystickData.angle d = Rmod (degrees (Math.atan2 dy dx) + 360) 360 /\
  JoystickData.distance d = Rmin (euclid dx dy 0 0 / maxDistance) 1.
Proof.
  cbv zeta. unfold joystickData. simpl.
  rewrite !clamp_max_min. repeat split.
  - pose proof (degrees_range _ (atan2_range dy dx)) as Hd.
    unfold degrees in *. unfold Math.PI. apply js_rem_Rmod; lra.
  - unfold Math.min, euclid. rewrite sqrt_sq_sum.
    rewrite !Rminus_0_r. reflexivity.
Qed.

Lemma joystickData_distance_range dx dy :
  0 < maxDistance ->
  0 <= JoystickData.distance (joystickData dx dy) <= 1.
Proof.
  intros Hm. unfold joystickData. simpl. unfold Math.min, Math.sqrt.
  assert (0 <= sqrt (dx * dx + dy * dy) / maxDistance).
  { apply Rmult_le_pos; [apply sqrt_pos|]. left.
    apply Rinv_0_lt_compat, Hm. }
  unfold Rmin. destruct (Rle_dec _ _); lra.
Qed.

(** C2. In a begin batch, a touch that is reached while the joystick has no
    touch and that lies within the joystick's circle becomes the joystick's
    touch: [joyActive] is set, and the handler calls [onJoystickMove] before
    it goes on to the rest of the batch, with the data computed from the
    position of that touch: [x] and [y] the offset from the joystick's
    centre over [maxDistance] clamped to [-1, 1], [angle] the [atan2] of the
    offset in degrees plus 360 modulo 360, and [distance] the distance to
    the centre over [maxDistance], at most 1. *)
Theorem C2_begin_claims_joystick (r s s1 : Overlay) (o1 : list Callback)
    (before after : list Touch) (t : Touch) :
  handleTouchStart r before s = (s1, o1) ->
  joystickTouchId s1 = None ->
  inCircle (pageX t) (pageY t) (joystickCenter r) (joystickSize / 2) ->
  let dx := pageX t - x (joystickCenter r) in
  let dy := pageY t - y (joystickCenter r) in
  exists s2 s3 o3,
    handleTouchStart r (before ++ [t]) s =
      (s2, o1 ++ [onJoystickMove (joystickData dx dy)]) /\
    joystickTouchId s2 = Some (identifier t) /\
    joyActive s2 = true /\
    joyPos s2 = knobOffset dx dy /\
    buttonTouches s2 = buttonTouches s1 /\
    handleTouchStart r after s2 = (s3, o3) /\
    handleTouchStart r (before ++ t :: after) s =
      (s3, o1 ++ onJoystickMove (joystickData dx dy) :: o3) /\
    JoystickData.x (joystickData dx dy) = clamp (dx / maxDistance) (-1) 1 /\
    JoystickData.y (joystickData dx dy) = clamp (dy / maxDistance) (-1) 1 /\
    JoystickData.angle (joystickData dx dy) =
      Rmod (degrees (Math.atan2 dy dx) + 360) 360 /\
    JoystickData.distance (joystickData dx dy) =
      Rmin (euclid (pageX t) (pageY t) (x (joystickCenter r))
                   (y (joystickCenter r)) / maxDistance) 1.
Proof.
  intros Hpre Hnone Hin dx dy.
  apply hitTestJoystick_inCircle in Hin.
  pose proof (touchStart1_joystick r t s1 Hnone Hin) as Hstep.
  cbv zeta in Hstep. fold dx dy in Hstep.
  destruct (joystickData_fields dx dy) as (Hx & Hy & Ha & Hd).
  cbv zeta in Hx, Hy, Ha, Hd.
  set (s2 := setJoyPos (knobOffset dx dy)
               (setJoyActive true
                  (setJoystickTouchId (Some (identifier t)) s1))) in *.
  destruct (handleTouchStart r after s2) as [s3 o3] eqn:Hpost.
  exists s2, s3, o3. unfold handleTouchStart in *.
  split.
  { rewrite forOf_app. apply (andThen_eq _ _ _ _ _ _ _ Hpre).
    simpl. unfold andThen. rewrite Hstep. simpl. reflexivity. }
  split; [reflexivity|]. split; [reflexivity|]. split; [reflexivity|].
  split; [reflexivity|]. split; [exact Hpost|].
  split.
  { rewrite forOf_app. apply (andThen_eq _ _ _ _ _ _ _ Hpre).
    simpl. unfold andThen. rewrite Hstep, Hpost. reflexivity. }
  split; [exact Hx|]. split; [exact Hy|]. split; [exact Ha|].
  rewrite Hd. unfold euclid, dx, dy. rewrite !Rminus_0_r. reflexivity.
Qed.

(** C3. A move of the joystick's touch calls [onJoystickMove] once, with
    [x] and [y] the offset over [maxDistance] clamped to [-1, 1], [angle]
    the [atan2] of the offset in degrees plus 360 modulo 360 and [distance]
    the length of the offset over [maxDistance], at most 1; a move batch
    makes one such call for each of its touches that is the joystick's.
    With [0 < maxDistance] the reported [x] and [y] lie in [-1, 1], [angle]
    in [0, 360) and [distance] in [0, 1]. *)
Theorem C3_joystick_move_output (r s : Overlay) (t : Touch)
    (ts : list Touch) :
  0 < maxDistance ->
  joystickTouchId s = Some (identifier t) ->
  let cx := x (joystickCenter r) in
  let cy := y (joystickCenter r) in
  let dx := pageX t - cx in
  let dy := pageY t - cy in
  let d := dataAt r t in
  snd (touchMove1 r t s) = [onJoystickMove d] /\
  snd (handleTouchMove r ts s) =
    (fun t' => onJoystickMove (dataAt r t')) <$> joystickMoves s ts /\
  JoystickData.x d = clamp (dx / maxDistance) (-1) 1 /\
  JoystickData.y d = clamp (dy / maxDistance) (-1) 1 /\
  JoystickData.angle d = Rmod (degrees (Math.atan2 dy dx) + 360) 360 /\
  JoystickData.distance d =
    Rmin (euclid (pageX t) (pageY t) cx cy / maxDistance) 1 /\
  -1 <= JoystickData.x d <= 1 /\
  -1 <= JoystickData.y d <= 1 /\
  0 <= JoystickData.angle d < 360 /\
  0 <= JoystickData.distance d <= 1.
Proof.
  intros Hm Hj cx cy dx dy d.
  destruct (joystickData_fields dx dy) as (Hx & Hy & Ha & Hd).
  cbv zeta in Hx, Hy, Ha, Hd.
  change (joystickData dx dy) with d in Hx, Hy, Ha, Hd.
  split; [rewrite touchMove1_joystick by exact Hj; reflexivity|].
  split; [apply handleTouchMove_calls|].
  split; [exact Hx|]. split; [exact Hy|]. split; [exact Ha|].
  split.
  { rewrite Hd. unfold euclid, dx, dy. rewrite !Rminus_0_r. reflexivity. }
  split; [rewrite Hx; apply clamp_range|].
  split; [rewrite Hy; apply clamp_range|].
  split; [rewrite Ha; apply Rmod_range; lra|].
  apply joystickData_distance_range, Hm.
Qed.

Lemma Rmod_plus_period a b : 0 <= a < b -> Rmod (a + b) b = a.
Proof.
  intros [H0 Hb]. unfold Rmod.
  assert (Hq : (a + b) / b = a / b + 1) by (field; lra).
  assert (Hi : 0 < / b) by (apply Rinv_0_lt_compat; lra).
  assert (Hab : 0 <= a / b < 1).
  { unfold Rdiv. assert (b * / b = 1) by (field; lra). split; nra. }
  rewrite <- (Int_part_spec ((a + b) / b) 1).
  - ring.
  - rewrite Hq. lra.
Qed.

Lemma atan2_origin : Math.atan2 0 0 = 0.
Proof.
  unfold Math.atan2.
  destruct (Rlt_dec 0 0) as [H | _]; [lra|]. reflexivity.
Qed.

Lemma atan2_up dy : 0 < dy -> Math.atan2 dy 0 = PI / 2.
Proof.
  intros Hy. unfold Math.atan2, Math.PI.
  destruct (Rlt_dec 0 0) as [H | _]; [lra|].
  destruct (Rlt_dec 0 dy) as [_ | H]; [reflexivity | contradiction].
Qed.

Lemma joystickData_origin :
  0 < maxDistance ->
  joystickData 0 0 =
    {| JoystickData.x := 0; JoystickData.y := 0;
       JoystickData.angle := 0; JoystickData.distance := 0 |}.
Proof.
  intros Hm. pose proof PI_RGT_0 as Hpi.
  destruct (joystickData_fields 0 0) as (Hx & Hy & Ha & Hd).
  cbv zeta in *. destruct (joystickData 0 0) as [jx jy ja jd].
  simpl in *. subst. f_equal.
  - unfold Rdiv. rewrite Rmult_0_l. unfold clamp.
    destruct (Rlt_dec 0 (-1)); [lra|]. destruct (Rlt_dec 1 0); lra.
  - unfold Rdiv. rewrite Rmult_0_l. unfold clamp.
    destruct (Rlt_dec 0 (-1)); [lra|]. destruct (Rlt_dec 1 0); lra.
  - rewrite atan2_origin. unfold degrees.
    replace (0 * 180 / PI + 360) with (0 + 360) by (field; lra).
    apply Rmod_plus_period. lra.
  - rewrite euclid_center. unfold Rdiv. rewrite Rmult_0_l.
    unfold Rmin. destruct (Rle_dec 0 1); lra.
Qed.

Lemma knobOffset_inside dx dy :
  Math.sqrt (dx * dx + dy * dy) <= maxDistance ->
  knobOffset dx dy = {| x := dx; y := dy |}.
Proof.
  intros H. unfold knobOffset. apply Rgtb_false in H. rewrite H. reflexivity.
Qed.

Lemma knobOffset_outside dx dy :
  0 < maxDistance ->
  maxDistance < Math.sqrt (dx * dx + dy * dy) ->
  let len := Math.sqrt (dx * dx + dy * dy) in
  knobOffset dx dy =
    {| x := Math.cos (Math.atan2 dy dx) * maxDistance;
       y := Math.sin (Math.atan2 dy dx) * maxDistance |} /\
  x (knobOffset dx dy) = dx * (maxDistance / len) /\
  y (knobOffset dx dy) = dy * (maxDistance / len) /\
  euclid (x (knobOffset dx dy)) (y (knobOffset dx dy)) 0 0 = maxDistance.
Proof.
  intros Hm Hlen len.
  assert (Hpos : 0 < len) by (unfold len; lra).
  destruct (cos_sin_atan2 dy dx Hpos) as [Hc Hs]. fold len in Hc, Hs.
  assert (Hk : knobOffset dx dy =
               {| x := Math.cos (Math.atan2 dy dx) * maxDistance;
                  y := Math.sin (Math.atan2 dy dx) * maxDistance |}).
  { unfold knobOffset. apply Rgtb_true in Hlen. rewrite Hlen. reflexivity. }
  rewrite Hk. simpl. rewrite Hc, Hs.
  split; [reflexivity|].
  split; [field; lra|]. split; [field; lra|].
  unfold euclid. rewrite !Rminus_0_r.
  assert (Hsq : len * len = dx * dx + dy * dy).
  { unfold len, Math.sqrt. apply sqrt_sqrt. nra. }
  replace ((dx / len * maxDistance) ^ 2 + (dy / len * maxDistance) ^ 2)
    with (maxDistance ^ 2).
  - apply sqrt_pow2. lra.
  - transitivity ((dx * dx + dy * dy) / (len * len) * maxDistance ^ 2).
    + rewrite <- Hsq. field. lra.
    + field. lra.
Qed.

(** C4 as amended.  When the offset of the joystick's touch is longer than
    [maxDistance], the stored knob offset is the offset scaled by
    [maxDistance] over its length, the point of the circle of radius
    [maxDistance] at the angle of the offset; the reported [x] and [y] are
    not taken from it but are the two coordinates of the offset over
    [maxDistance], each clamped to [-1, 1] on its own, and the reported
    [distance] is 1.  An offset of length twice [maxDistance] along 90
    degrees gives the knob (0, maxDistance) and reports x 0, y 1, angle 90,
    distance 1. *)
Theorem C4_clamp_projects_knob (r s : Overlay) (t : Touch) :
  0 < maxDistance ->
  joystickTouchId s = Some (identifier t) ->
  let cx := x (joystickCenter r) in
  let cy := y (joystickCenter r) in
  let dx := pageX t - cx in
  let dy := pageY t - cy in
  let len := euclid (pageX t) (pageY t) cx cy in
  maxDistance < len ->
  let k := joyPos (fst (touchMove1 r t s)) in
  let d := dataAt r t in
  k = {| x := Math.cos (Math.atan2 dy dx) * maxDistance;
         y := Math.sin (Math.atan2 dy dx) * maxDistance |} /\
  x k = dx * (maxDistance / len) /\
  y k = dy * (maxDistance / len) /\
  euclid (x k) (y k) 0 0 = maxDistance /\
  snd (touchMove1 r t s) = [onJoystickMove d] /\
  JoystickData.x d = clamp (dx / maxDistance) (-1) 1 /\
  JoystickData.y d = clamp (dy / maxDistance) (-1) 1 /\
  JoystickData.distance d = 1 /\
  (dx = 0 -> dy = 2 * maxDistance ->
   k = {| x := 0; y := maxDistance |} /\
   d = {| JoystickData.x := 0; JoystickData.y := 1;
          JoystickData.angle := 90; JoystickData.distance := 1 |}).
Proof.
  intros Hm Hj cx cy dx dy len Hlen k d.
  assert (Hl : len = Math.sqrt (dx * dx + dy * dy)).
  { unfold len, euclid, dx, dy. symmetry. apply sqrt_sq_sum. }
  rewrite Hl in Hlen.
  destruct (knobOffset_outside dx dy Hm Hlen) as (Hk & Hkx & Hky & Hke).
  cbv zeta in Hkx, Hky. rewrite <- Hl in Hkx, Hky.
  assert (Hkk : k = knobOffset dx dy).
  { unfold k. rewrite touchMove1_joystick by exact Hj. reflexivity. }
  destruct (joystickData_fields dx dy) as (Hx & Hy & Ha & Hd).
  cbv zeta in Hx, Hy, Ha, Hd.
  change (joystickData dx dy) with d in Hx, Hy, Ha, Hd.
  assert (Hd1 : JoystickData.distance d = 1).
  { rewrite Hd. unfold euclid. rewrite !Rminus_0_r, <- sqrt_sq_sum.
    assert (1 < Math.sqrt (dx * dx + dy * dy) / maxDistance).
    { apply Rmult_lt_reg_r with maxDistance; [exact Hm|].
      unfold Rdiv. rewrite Rmult_assoc, Rinv_l by lra. lra. }
    unfold Rmin. destruct (Rle_dec _ _); lra. }
  rewrite Hkk.
  split; [exact Hk|]. split; [exact Hkx|]. split; [exact Hky|].
  split; [exact Hke|].
  split; [rewrite touchMove1_joystick by exact Hj; reflexivity|].
  split; [exact Hx|]. split; [exact Hy|]. split; [exact Hd1|].
  intros Hdx Hdy. pose proof PI_RGT_0 as Hpi. split.
  - assert (Hlen2 : len = 2 * maxDistance).
    { rewrite Hl, Hdx, Hdy.
      replace (0 * 0 + 2 * maxDistance * (2 * maxDistance))
        with ((2 * maxDistance) * (2 * maxDistance)) by ring.
      apply sqrt_square. lra. }
    destruct (knobOffset dx dy) as [kx ky]. simpl in *. f_equal.
    + rewrite Hkx, Hdx. ring.
    + rewrite Hky, Hdy, Hlen2. field. lra.
  - destruct d as [jx jy ja jd]. simpl in *. subst jx jy ja jd. f_equal.
    + rewrite Hdx. unfold Rdiv. rewrite Rmult_0_l. unfold clamp.
      destruct (Rlt_dec 0 (-1)); [lra|]. destruct (Rlt_dec 1 0); lra.
    + rewrite Hdy.
      replace (2 * maxDistance / maxDistance) with 2 by (field; lra).
      unfold clamp. destruct (Rlt_dec 2 (-1)); [lra|].
      destruct (Rlt_dec 1 2); lra.
    + rewrite Hdx, Hdy, atan2_up by lra. unfold degrees.
      replace (PI / 2 * 180 / PI + 360) with (90 + 360) by (field; lra).
      apply Rmod_plus_period. lra.
    + exact Hd1.
Qed.

(** C10. A touch that begins exactly at the joystick's centre while the
    joystick has no touch takes the joystick, and the call it causes is
    [onJoystickMove] with x 0, y 0, angle 0 and distance 0; the angle of the
    zero offset is 0 because [atan2 0 0] is 0. *)
Theorem C10_begin_at_center (r s : Overlay) (t : Touch) :
  0 < maxDistance ->
  joystickTouchId s = None ->
  pageX t = x (joystickCenter r) ->
  pageY t = y (joystickCenter r) ->
  Math.atan2 0 0 = 0 /\
  snd (touchStart1 r t s) =
    [onJoystickMove {| JoystickData.x := 0; JoystickData.y := 0;
                       JoystickData.angle := 0;
                       JoystickData.distance := 0 |}] /\
  joystickTouchId (fst (touchStart1 r t s)) = Some (identifier t) /\
  joyActive (fst (touchStart1 r t s)) = true /\
  joyPos (fst (touchStart1 r t s)) = {| x := 0; y := 0 |}.
Proof.
  intros Hm Hn Hx Hy. split; [apply atan2_origin|].
  assert (Hhit : hitTestJoystick r (pageX t) (pageY t) = true).
  { apply hitTestJoystick_inCircle. unfold inCircle.
    rewrite Hx, Hy, euclid_center. unfold maxDistance in Hm. lra. }
  pose proof (touchStart1_joystick r t s Hn Hhit) as Hs. cbv zeta in Hs.
  replace (pageX t - x (joystickCenter r)) with 0 in Hs by lra.
  replace (pageY t - y (joystickCenter r)) with 0 in Hs by lra.
  rewrite (joystickData_origin Hm) in Hs.
  rewrite knobOffset_inside in Hs.
  - rewrite Hs. simpl. repeat split.
  - unfold Math.sqrt. replace (0 * 0 + 0 * 0) with 0 by ring.
    rewrite sqrt_0. lra.
Qed.

(** ** Hit tests of a began touch *)

Lemma not_claiming r s px py :
  ~ (joystickTouchId s = None /\
     inCircle px py (joystickCenter r) (joystickSize / 2)) ->
  joystickTouchId s <> None \/ hitTestJoystick r px py = false.
Proof.
  intros H. destruct (hitTestJoystick r px py) eqn:Hh; [|right; reflexivity].
  left. intros Hn. apply H. split; [exact Hn|].
  apply hitTestJoystick_inCircle, Hh.
Qed.



Lemma handleTouchStart_keeps_joystick r ts s j :
  joystickTouchId s = Some j ->
  joystickTouchId (fst (handleTouchStart r ts s)) = Some j.
Proof.
  intros Hj. unfold handleTouchStart.
  apply (forOf_keeps (fun s0 => joystickTouchId s0 = Some j)); [|exact Hj].
  intros t s0 _ H0.
  destruct (touchStart1_refs r t s0) as [_ H]. cbv zeta in H.
  destruct H as [(Hn & _) | [(btn & Hj' & _) | ->]]; congruence.
Qed.

(** ** Further properties of the overlay *)

Lemma touchStart1_cases r t s :
  (joystickTouchId s = None /\
   hitTestJoystick r (pageX t) (pageY t) = true /\
   touchStart1 r t s =
     (setJoyPos (knobOffset (pageX t - x (joystickCenter r))
                            (pageY t - y (joystickCenter r)))
        (setJoyActive true (setJoystickTouchId (Some (identifier t)) s)),
      [onJoystickMove (dataAt r t)])) \/
  (exists btn,
     hitTestButtons r (pageX t) (pageY t) = Some btn /\
     touchStart1 r t s =
       (setPressedButtons (fun prev => prev ∪ {[ btn ]})
          (updButtonTouches (insert (identifier t) btn) s),
        [onButtonPress btn])) \/
  touchStart1 r t s = (s, []).
Proof.
  destruct (decide (joystickTouchId s = None)) as [Hn | Hn].
  - destruct (hitTestJoystick r (pageX t) (pageY t)) eqn:Hh.
    + left. split; [exact Hn|]. split; [reflexivity|].
      apply (touchStart1_joystick r t s Hn Hh).
    + destruct (hitTestButtons r (pageX t) (pageY t)) as [btn|] eqn:Hb.
      * right. left. exists btn. split; [reflexivity|].
        apply touchStart1_button; auto.
      * right. right. apply touchStart1_miss; auto.
  - destruct (hitTestButtons r (pageX t) (pageY t)) as [btn|] eqn:Hb.
    + right. left. exists btn. split; [reflexivity|].
      apply touchStart1_button; auto.
    + right. right. apply touchStart1_miss; auto.
Qed.

Lemma in_buttons b :
  b ∈ buttons ->
  b = {| type := attack; right := 20; bottom := 80 |} \/
  b = {| type := dodge; right := 100; bottom := 20 |} \/
  b = {| type := jump; right := 100; bottom := 140 |} \/
  b = {| type := run; right := 180; bottom := 80 |}.
Proof.
  unfold buttons. intros H.
  repeat (apply elem_of_cons in H as [-> | H]; [tauto|]).
  inversion H.
Qed.

Lemma inCircle_sq px py c radius :
  0 <= radius -> inCircle px py c radius ->
  (px - x c) ^ 2 + (py - y c) ^ 2 <= radius ^ 2.
Proof. intros Hr H. apply euclid_le_sq; assumption. Qed.

(** The hit circles of the four buttons are pairwise disjoint, so a point
    is in the circle of at most one button and the order in which
    [hitTestButtons] tries them never decides the answer: the answer is the
    button whose circle holds the point. *)
Theorem buttons_never_overlap (r : Overlay) (px py : R) :
  (forall b1 b2, b1 ∈ buttons -> b2 ∈ buttons ->
     inCircle px py (getButtonCenter r b1) buttonRadius ->
     inCircle px py (getButtonCenter r b2) buttonRadius -> b1 = b2) /\
  (forall b, b ∈ buttons ->
     (hitTestButtons r px py = Some (type b) <->
      inCircle px py (getButtonCenter r b) buttonRadius)).
Proof.
  assert (Hdis : forall b1 b2, b1 ∈ buttons -> b2 ∈ buttons ->
     inCircle px py (getButtonCenter r b1) buttonRadius ->
     inCircle px py (getButtonCenter r b2) buttonRadius -> b1 = b2).
  { intros b1 b2 H1 H2 Hc1 Hc2.
    apply inCircle_sq in Hc1; [|unfold buttonRadius; lra].
    apply inCircle_sq in Hc2; [|unfold buttonRadius; lra].
    set (u := px - width (overlaySize r)) in *.
    set (v := py - height (overlaySize r)) in *.
    apply in_buttons in H1. apply in_buttons in H2.
    destruct H1 as [-> | [-> | [-> | ->]]];
      destruct H2 as [-> | [-> | [-> | ->]]];
      try reflexivity; exfalso;
      cbv [getButtonCenter x y right bottom buttonRadius] in Hc1, Hc2;
      match type of Hc1 with
      | (px - (_ - ?a)) ^ 2 + (py - (_ - ?b)) ^ 2 <= _ =>
          replace (px - (width (overlaySize r) - a)) with (u + a) in Hc1
            by (unfold u; ring);
          replace (py - (height (overlaySize r) - b)) with (v + b) in Hc1
            by (unfold v; ring)
      end;
      match type of Hc2 with
      | (px - (_ - ?a)) ^ 2 + (py - (_ - ?b)) ^ 2 <= _ =>
          replace (px - (width (overlaySize r) - a)) with (u + a) in Hc2
            by (unfold u; ring);
          replace (py - (height (overlaySize r) - b)) with (v + b) in Hc2
            by (unfold v; ring)
      end;
      clearbody u v;
      match goal with
      | H1 : (u + ?a) ^ 2 + (v + ?b) ^ 2 <= _,
        H2 : (u + ?c) ^ 2 + (v + ?d) ^ 2 <= _ |- _ =>
          pose proof (sum_sq_nonneg ((u + a) + (u + c)) ((v + b) + (v + d)))
      end; nra. }
  split; [exact Hdis|].
  intros b Hb. unfold hitTestButtons. rewrite hitTestButtonsIn_Some. split.
  - intros (before & b' & after & Heq & Ht & Hin & _).
    assert (Hb' : b' ∈ buttons).
    { rewrite Heq. apply elem_of_app. right. left. }
    assert (b' = b); [|subst; exact Hin].
    apply in_buttons in Hb. apply in_buttons in Hb'.
    destruct Hb as [-> | [-> | [-> | ->]]];
      destruct Hb' as [-> | [-> | [-> | ->]]];
      simpl in Ht; try discriminate; reflexivity.
  - intros Hin. apply list_elem_of_split in Hb as (before & after & Heq).
    exists before, b, after. split; [exact Heq|]. split; [reflexivity|].
    split; [exact Hin|].
    intros b' Hb' Hin'.
    assert (Hbb : b' ∈ buttons).
    { rewrite Heq. apply elem_of_app. left. exact Hb'. }
    assert (Hin2 : b ∈ buttons).
    { rewrite Heq. apply elem_of_app. right. left. }
    pose proof (Hdis b' b Hbb Hin2 Hin' Hin) as ->.
    assert (Hnd : NoDup buttons).
    { unfold buttons.
      repeat (apply NoDup_cons; split;
        [intros H;
         repeat (apply elem_of_cons in H as [H | H]; [discriminate H|]);
         inversion H|]).
      apply NoDup_nil_2. }
    rewrite Heq in Hnd. apply NoDup_app in Hnd as (_ & Hnd & _).
    apply (Hnd b Hb'). left.
Qed.

(** The joystick is anchored to the bottom left corner and the buttons to
    the bottom right one: when the overlay grows by [(dw, dh)], the joystick
    is hit at a point moved by [(0, dh)] and the buttons at a point moved by
    [(dw, dh)] exactly as they were hit before. *)
Theorem controls_follow_corners (r : Overlay) (dw dh px py : R) :
  hitTestJoystick (resized dw dh r) px (py + dh) = hitTestJoystick r px py /\
  hitTestButtons (resized dw dh r) (px + dw) (py + dh) =
    hitTestButtons r px py.
Proof.
  split.
  - unfold hitTestJoystick, joystickCenter, resized. simpl.
    replace (py + dh -
             (height (overlaySize r) + dh -
              (joystickBottom + joystickSize / 2)))
      with (py - (height (overlaySize r) -
                  (joystickBottom + joystickSize / 2))) by ring.
    reflexivity.
  - unfold hitTestButtons.
    induction buttons as [|b bs IH]; [reflexivity|].
    rewrite !hitTestButtonsIn_cons, IH.
    unfold getButtonCenter, resized, euclid. simpl.
    replace (px + dw - (width (overlaySize r) + dw - (right b + buttonRadius)))
      with (px - (width (overlaySize r) - (right b + buttonRadius))) by ring.
    replace (py + dh -
             (height (overlaySize r) + dh - (bottom b + buttonRadius)))
      with (py - (height (overlaySize r) - (bottom b + buttonRadius)))
      by ring.
    reflexivity.
Qed.

Lemma dispatch_keeps (I : Overlay -> Prop) :
  (forall r t s, I s -> I (fst (touchStart1 r t s))) ->
  (forall r t s, I s -> I (fst (touchMove1 r t s))) ->
  (forall r t s, I s -> I (fst (touchEnd1 r t s))) ->
  (forall w h s, I s -> I (fst (onLayout w h s))) ->
  forall ev s, I s -> I (fst (dispatch ev s)).
Proof.
  intros Hs Hm He Hl ev s Hi. destruct ev as [ts|ts|ts|ts|w h]; simpl.
  - unfold handleTouchStart. apply forOf_keeps; auto.
  - unfold handleTouchMove. apply forOf_keeps; auto.
  - unfold handleTouchEnd. apply forOf_keeps; auto.
  - unfold handleTouchEnd. apply forOf_keeps; auto.
  - apply Hl, Hi.
Qed.

Lemma runEvents_keeps (I : Overlay -> Prop) :
  (forall ev s, I s -> I (fst (dispatch ev s))) ->
  forall evs s, I s -> I (fst (runEvents evs s)).
Proof.
  intros Hd evs. induction evs as [|ev evs IH]; intros s Hi; [exact Hi|].
  simpl. unfold andThen. pose proof (Hd ev s Hi) as H1.
  destruct (dispatch ev s) as [s1 o1]. specialize (IH s1 H1).
  destruct (runEvents evs s1) as [s2 o2]. exact IH.
Qed.

Lemma knobOffset_within dx dy :
  0 < maxDistance ->
  euclid (x (knobOffset dx dy)) (y (knobOffset dx dy)) 0 0 <= maxDistance.
Proof.
  intros Hm.
  destruct (Rle_dec (Math.sqrt (dx * dx + dy * dy)) maxDistance) as [H | H].
  - rewrite (knobOffset_inside dx dy H). simpl.
    unfold euclid. rewrite !Rminus_0_r, <- sqrt_sq_sum. exact H.
  - apply Rnot_le_lt in H.
    destruct (knobOffset_outside dx dy Hm H) as (_ & _ & _ & He).
    rewrite He. lra.
Qed.

Lemma touchMove1_shape r t s :
  touchMove1 r t s = (s, []) \/
  (joystickTouchId s = Some (identifier t) /\
   touchMove1 r t s =
     (setJoyPos (knobOffset (pageX t - x (joystickCenter r))
                            (pageY t - y (joystickCenter r))) s,
      [onJoystickMove (dataAt r t)])).
Proof.
  destruct (decide (joystickTouchId s = Some (identifier t))) as [H | H].
  - right. split; [exact H|]. apply touchMove1_joystick, H.
  - left. apply touchMove1_unbound, H.
Qed.

Lemma knob_step_invariant (I : Point -> Prop) :
  I {| x := 0; y := 0 |} ->
  (forall dx dy, I (knobOffset dx dy)) ->
  forall ev s,
    (I (joyPos s) /\ knobAtRest s) ->
    (I (joyPos (fst (dispatch ev s))) /\ knobAtRest (fst (dispatch ev s))).
Proof.
  intros I0 Ik.
  apply (dispatch_keeps (fun s => I (joyPos s) /\ knobAtRest s)).
  - intros r t s [Hi Hr].
    destruct (touchStart1_cases r t s)
      as [(_ & _ & ->) | [(btn & _ & ->) | ->]]; simpl.
    + split; [apply Ik | intros H; discriminate H].
    + split; [exact Hi | exact Hr].
    + split; [exact Hi | exact Hr].
  - intros r t s [Hi Hr].
    destruct (touchMove1_shape r t s) as [-> | [Hj ->]]; simpl.
    + split; [exact Hi | exact Hr].
    + split; [apply Ik|]. unfold knobAtRest. simpl. rewrite Hj.
      intros H; discriminate H.
  - intros r t s [Hi Hr]. rewrite touchEnd1_shape. cbv zeta.
    unfold knobAtRest in *.
    destruct (bool_decide _ && joyActive r);
      destruct (buttonTouches s !! identifier t); simpl; auto.
  - intros w h s [Hi Hr]. unfold onLayout.
    destruct (truthy w && truthy h); simpl; auto.
Qed.

Lemma reachable_knobAtRest s : reachable s -> knobAtRest s.
Proof.
  intros (window & evs & ->).
  apply (runEvents_keeps (fun s => True /\ knobAtRest s)).
  - intros ev s. apply (knob_step_invariant (fun _ => True)); auto.
  - split; [exact I|]. intros _. reflexivity.
Qed.

(** In every reachable state the knob offset is within [maxDistance] of the
    centre, and while the joystick has no touch the knob is at the centre
    and [joyActive] is false. *)
Theorem knob_within_travel (s : Overlay) :
  0 < maxDistance -> reachable s ->
  knobWithinTravel s /\
  (joystickTouchId s = None ->
   joyPos s = {| x := 0; y := 0 |} /\ joyActive s = false).
Proof.
  intros Hm Hr. split.
  - destruct Hr as (window & evs & ->).
    apply (runEvents_keeps
             (fun s => euclid (x (joyPos s)) (y (joyPos s)) 0 0
                         <= maxDistance /\ knobAtRest s)).
    + intros ev s.
      apply (knob_step_invariant
               (fun p => euclid (x p) (y p) 0 0 <= maxDistance)).
      * simpl. rewrite euclid_center. lra.
      * intros dx dy. apply knobOffset_within, Hm.
    + split; [simpl; rewrite euclid_center; lra | intros _; reflexivity].
  - intros Hn. split; [apply reachable_knobAtRest; assumption|].
    pose proof (reachable_sync s Hr) as Hs. unfold activeInSync in Hs.
    destruct (joyActive s); [|reflexivity].
    exfalso. apply Hs; [reflexivity | exact Hn].
Qed.

(** When two touches hold the same button, the end of one of them calls
    [onButtonRelease] for the button and takes it out of the pressed set
    although the other touch still holds it; the end of the other touch
    calls [onButtonRelease] for the button once more. *)
Theorem release_unpresses_shared_button (r : Overlay) (t : Touch)
    (s : Overlay) (j : TouchId) (b : ActionType) :
  buttonTouches s !! identifier t = Some b ->
  identifier t <> j ->
  buttonTouches s !! j = Some b ->
  let s' := fst (touchEnd1 r t s) in
  onButtonRelease b ∈ snd (touchEnd1 r t s) /\
  (b ∉ pressedButtons s') /\
  buttonTouches s' !! j = Some b /\
  forall r' t', identifier t' = j ->
    onButtonRelease b ∈ snd (touchEnd1 r' t' s').
Proof.
  intros Ht Hne Hj s'.
  assert (Hj' : buttonTouches s' !! j = Some b).
  { unfold s'. destruct (touchEnd1_refs r t s) as (Hb & _). cbv zeta in Hb.
    rewrite Hb, lookup_delete_ne by exact Hne. exact Hj. }
  split; [|split; [|split; [exact Hj'|]]].
  - rewrite touchEnd1_shape. cbv zeta. rewrite Ht. simpl.
    apply elem_of_app. right. left.
  - unfold s'. rewrite touchEnd1_shape. cbv zeta. rewrite Ht.
    destruct (bool_decide _ && joyActive r); simpl;
      rewrite elem_of_difference, elem_of_singleton; intros [_ H]; auto.
  - intros r' t' Hid. rewrite touchEnd1_shape. cbv zeta.
    rewrite Hid, Hj'. simpl. apply elem_of_app. right. left.
Qed.

Lemma runEvents_two ev1 ev2 s s1 o1 s2 o2 :
  dispatch ev1 s = (s1, o1) -> dispatch ev2 s1 = (s2, o2) ->
  runEvents [ev1; ev2] s = (s2, o1 ++ o2).
Proof.
  intros H1 H2. simpl. unfold andThen, skip. rewrite H1, H2.
  rewrite app_nil_r. reflexivity.
Qed.

Lemma forOf_one t body s : forOf [t] body s = body t s.
Proof.
  simpl. unfold andThen, skip. destruct (body t s) as [s1 o1].
  rewrite app_nil_r. reflexivity.
Qed.

(** A tap on the free joystick is a round trip: from a reachable state in
    which the joystick has no touch, a touch that begins within the
    joystick's circle and then ends leaves the overlay exactly as it was,
    and the callbacks are one [onJoystickMove] followed by
    [onJoystickRelease]. *)
Theorem joystick_tap_round_trip (s : Overlay) (t t' : Touch) :
  reachable s ->
  joystickTouchId s = None ->
  buttonTouches s !! identifier t = None ->
  inCircle (pageX t) (pageY t) (joystickCenter s) (joystickSize / 2) ->
  identifier t' = identifier t ->
  runEvents [TouchStart [t]; TouchEnd [t']] s =
    (s, [onJoystickMove (dataAt s t); onJoystickRelease]).
Proof.
  intros Hr Hn Hb Hin Hid.
  pose proof (reachable_knobAtRest s Hr Hn) as Hpos.
  assert (Hact : joyActive s = false).
  { pose proof (reachable_sync s Hr) as Hs. unfold activeInSync in Hs.
    destruct (joyActive s); [|reflexivity].
    exfalso. apply Hs; [reflexivity | exact Hn]. }
  apply hitTestJoystick_inCircle in Hin.
  pose proof (touchStart1_joystick s t s Hn Hin) as H1. cbv zeta in H1.
  set (s1 := setJoyPos _ _) in H1.
  change ([onJoystickMove (dataAt s t); onJoystickRelease])
    with ([onJoystickMove (dataAt s t)] ++ [onJoystickRelease]).
  apply (runEvents_two _ _ s s1).
  - simpl. unfold handleTouchStart. rewrite forOf_one. exact H1.
  - simpl. unfold handleTouchEnd. rewrite forOf_one.
    rewrite touchEnd1_shape. cbv zeta. rewrite Hid.
    assert (Hb1 : buttonTouches s1 !! identifier t = None) by exact Hb.
    rewrite Hb1. unfold s1 at 2 3. simpl.
    rewrite bool_decide_eq_true_2 by reflexivity. simpl.
    f_equal. unfold s1, joystickReleased. destruct s. simpl in *.
    subst. reflexivity.
Qed.

(** A tap on a free button is a round trip: a touch without a control that
    begins on a button that is not pressed, and does not take the joystick,
    and then ends, leaves the overlay exactly as it was; the callbacks are
    [onButtonPress] and [onButtonRelease] for that button. *)
Theorem button_tap_round_trip (s : Overlay) (t t' : Touch)
    (b : ActionType) :
  ~ (joystickTouchId s = None /\
     inCircle (pageX t) (pageY t) (joystickCenter s) (joystickSize / 2)) ->
  hitTestButtons s (pageX t) (pageY t) = Some b ->
  unbound s (identifier t) ->
  b ∉ pressedButtons s ->
  identifier t' = identifier t ->
  runEvents [TouchStart [t]; TouchEnd [t']] s =
    (s, [onButtonPress b; onButtonRelease b]).
Proof.
  intros Hc Hb [Hj Hu] Hp Hid.
  pose proof (touchStart1_button s t s b (not_claiming s s _ _ Hc) Hb) as H1.
  set (s1 := setPressedButtons _ _) in H1.
  change ([onButtonPress b; onButtonRelease b])
    with ([onButtonPress b] ++ [onButtonRelease b]).
  apply (runEvents_two _ _ s s1).
  - simpl. unfold handleTouchStart. rewrite forOf_one. exact H1.
  - simpl. unfold handleTouchEnd. rewrite forOf_one.
    rewrite touchEnd1_shape. cbv zeta. rewrite Hid.
    assert (Hb1 : buttonTouches s1 !! identifier t = Some b).
    { unfold s1. simpl. apply lookup_insert_eq. }
    rewrite Hb1.
    assert (Hj1 : joystickTouchId s1 = joystickTouchId s) by reflexivity.
    rewrite Hj1. rewrite bool_decide_eq_false_2 by congruence. simpl.
    f_equal. unfold s1, buttonReleased, setPressedButtons, updButtonTouches.
    destruct s as [sz jp ja jt pb bt]. simpl in *. f_equal.
    + apply set_eq. intros a. rewrite elem_of_difference, elem_of_union,
        elem_of_singleton. split.
      * intros [[H | H] Hn]; [exact H | contradiction].
      * intros H. split; [left; exact H | intros ->; contradiction].
    + rewrite delete_insert_eq. apply delete_id. exact Hu.
Qed.

(** ** Batches *)

Lemma forOf_ext ts body body' s :
  (forall t s0, body t s0 = body' t s0) ->
  forOf ts body s = forOf ts body' s.
Proof.
  intros H. revert s. induction ts as [|t ts IH]; intros s; [reflexivity|].
  simpl. unfold andThen. rewrite H. destruct (body' t s) as [s1 o1].
  rewrite IH. reflexivity.
Qed.

Lemma hitTestButtonsIn_render bs r r' px py :
  overlaySize r = overlaySize r' ->
  hitTestButtonsIn bs r px py = hitTestButtonsIn bs r' px py.
Proof.
  intros H. induction bs as [|b bs IH]; [reflexivity|].
  simpl. unfold getButtonCenter. rewrite H, IH. reflexivity.
Qed.

Lemma touchStart1_render r r' t s :
  overlaySize r = overlaySize r' -> touchStart1 r t s = touchStart1 r' t s.
Proof.
  intros H. unfold touchStart1, hitTestButtons.
  rewrite (hitTestButtonsIn_render buttons r r' _ _ H).
  unfold hitTestJoystick, startJoystickWithTouch, moveJoystickWithTouch,
    joystickCenter. rewrite H. reflexivity.
Qed.

Lemma touchMove1_render r r' t s :
  overlaySize r = overlaySize r' -> touchMove1 r t s = touchMove1 r' t s.
Proof.
  intros H. unfold touchMove1, moveJoystickWithTouch, joystickCenter.
  rewrite H. reflexivity.
Qed.

Lemma touchEnd1_render r r' t s :
  (joystickTouchId s <> None -> joyActive r = joyActive r') ->
  touchEnd1 r t s = touchEnd1 r' t s.
Proof.
  intros H. rewrite !touchEnd1_shape. cbv zeta.
  destruct (bool_decide (Some (identifier t) = joystickTouchId s)) eqn:He;
    [|reflexivity].
  apply bool_decide_eq_true in He.
  rewrite H by (rewrite <- He; discriminate). reflexivity.
Qed.

Lemma touchEnd1_joystick_stays r t s :
  joystickTouchId (fst (touchEnd1 r t s)) <> None ->
  joystickTouchId (fst (touchEnd1 r t s)) = joystickTouchId s /\
  joyActive (fst (touchEnd1 r t s)) = joyActive s.
Proof.
  destruct (touchEnd1_refs r t s) as (_ & Hj & Ha & _). cbv zeta in *.
  rewrite Hj, Ha. destruct (_ && _); [intros H; contradiction | auto].
Qed.

Lemma handleTouchEnd_render r r' ts s :
  (joystickTouchId s <> None -> joyActive r = joyActive r') ->
  handleTouchEnd r ts s = handleTouchEnd r' ts s.
Proof.
  unfold handleTouchEnd. revert s.
  induction ts as [|t ts IH]; intros s H; [reflexivity|].
  simpl. unfold andThen. rewrite (touchEnd1_render r r' t s H).
  pose proof (touchEnd1_joystick_stays r' t s) as Hst.
  destruct (touchEnd1 r' t s) as [s1 o1]. simpl in Hst.
  rewrite IH; [reflexivity|].
  intros Hn. apply H. destruct (Hst Hn) as [Hj _]. rewrite <- Hj. exact Hn.
Qed.

Lemma handleTouchEnd_joystick_stays r ts s :
  joystickTouchId (fst (handleTouchEnd r ts s)) <> None ->
  joyActive (fst (handleTouchEnd r ts s)) = joyActive s.
Proof.
  unfold handleTouchEnd.
  assert (H : joystickTouchId (fst (forOf ts (touchEnd1 r) s)) <> None ->
              joystickTouchId (fst (forOf ts (touchEnd1 r) s)) =
                joystickTouchId s /\
              joyActive (fst (forOf ts (touchEnd1 r) s)) = joyActive s).
  { apply (forOf_keeps (fun s0 => joystickTouchId s0 <> None ->
                          joystickTouchId s0 = joystickTouchId s /\
                          joyActive s0 = joyActive s)); [|auto].
    intros t s0 _ H0 Hn.
    destruct (touchEnd1_joystick_stays r t s0 Hn) as [Hj Ha].
    rewrite Hj, Ha. apply H0. rewrite <- Hj. exact Hn. }
  intros Hn. apply H, Hn.
Qed.

Lemma runEvents_one ev s : runEvents [ev] s = dispatch ev s.
Proof.
  simpl. unfold andThen, skip. destruct (dispatch ev s) as [s1 o1].
  rewrite app_nil_r. reflexivity.
Qed.

(** Touches delivered in one batch or in two consecutive batches of the same
    kind give the same state and the same callbacks, for begin, move, end
    and cancel alike. *)
Theorem batches_split (s : Overlay) (ts1 ts2 : list Touch) :
  runEvents [TouchStart (ts1 ++ ts2)] s =
    runEvents [TouchStart ts1; TouchStart ts2] s /\
  runEvents [TouchMove (ts1 ++ ts2)] s =
    runEvents [TouchMove ts1; TouchMove ts2] s /\
  runEvents [TouchEnd (ts1 ++ ts2)] s =
    runEvents [TouchEnd ts1; TouchEnd ts2] s /\
  runEvents [TouchCancel (ts1 ++ ts2)] s =
    runEvents [TouchCancel ts1; TouchCancel ts2] s.
Proof.
  assert (Hend : handleTouchEnd s (ts1 ++ ts2) s =
                 (let '(s1, o1) := handleTouchEnd s ts1 s in
                  let '(s2, o2) := handleTouchEnd s1 ts2 s1 in
                  (s2, o1 ++ o2))).
  { unfold handleTouchEnd at 1. rewrite forOf_app. unfold andThen.
    fold (handleTouchEnd s ts1 s).
    pose proof (handleTouchEnd_joystick_stays s ts1 s) as Hst.
    destruct (handleTouchEnd s ts1 s) as [s1 o1]. simpl in Hst.
    fold (handleTouchEnd s ts2 s1).
    rewrite (handleTouchEnd_render s s1 ts2 s1); [reflexivity|].
    intros Hn. symmetry. apply Hst, Hn. }
  split; [|split; [|split]].
  - destruct (dispatch (TouchStart ts1) s) as [s1 o1] eqn:H1.
    destruct (dispatch (TouchStart ts2) s1) as [s2 o2] eqn:H2.
    rewrite (runEvents_two _ _ s s1 o1 s2 o2 H1 H2), runEvents_one.
    pose proof (dispatch_overlaySize_touch (TouchStart ts1) s
                  ltac:(intros; discriminate)) as Hsz.
    rewrite H1 in Hsz. simpl in *. unfold handleTouchStart in *.
    rewrite forOf_app. apply (andThen_eq _ _ _ _ _ _ _ H1).
    rewrite <- H2. apply forOf_ext.
    intros. apply touchStart1_render. symmetry. exact Hsz.
  - destruct (dispatch (TouchMove ts1) s) as [s1 o1] eqn:H1.
    destruct (dispatch (TouchMove ts2) s1) as [s2 o2] eqn:H2.
    rewrite (runEvents_two _ _ s s1 o1 s2 o2 H1 H2), runEvents_one.
    pose proof (dispatch_overlaySize_touch (TouchMove ts1) s
                  ltac:(intros; discriminate)) as Hsz.
    rewrite H1 in Hsz. simpl in *. unfold handleTouchMove in *.
    rewrite forOf_app. apply (andThen_eq _ _ _ _ _ _ _ H1).
    rewrite <- H2. apply forOf_ext.
    intros. apply touchMove1_render. symmetry. exact Hsz.
  - destruct (dispatch (TouchEnd ts1) s) as [s1 o1] eqn:H1.
    destruct (dispatch (TouchEnd ts2) s1) as [s2 o2] eqn:H2.
    rewrite (runEvents_two _ _ s s1 o1 s2 o2 H1 H2), runEvents_one.
    simpl in *. rewrite Hend, H1, H2. reflexivity.
  - destruct (dispatch (TouchCancel ts1) s) as [s1 o1] eqn:H1.
    destruct (dispatch (TouchCancel ts2) s1) as [s2 o2] eqn:H2.
    rewrite (runEvents_two _ _ s s1 o1 s2 o2 H1 H2), runEvents_one.
    simpl in *. rewrite Hend, H1, H2. reflexivity.
Qed.




(** ** Runs of a disciplined host, with the callbacks so far *)

Lemma forOf_keeps_log (J : Overlay -> list Callback -> Prop) ts body s acc :
  (forall t s0 acc0, t ∈ ts -> J s0 acc0 ->
     J (fst (body t s0)) (acc0 ++ snd (body t s0))) ->
  J s acc ->
  J (fst (forOf ts body s)) (acc ++ snd (forOf ts body s)).
Proof.
  revert s acc. induction ts as [|t ts IH]; intros s acc Hstep Hj; simpl.
  - rewrite app_nil_r. exact Hj.
  - unfold andThen.
    pose proof (Hstep t s acc ltac:(left) Hj) as H1.
    destruct (body t s) as [s1 o1]. simpl in H1.
    specialize (IH s1 (acc ++ o1)).
    destruct (forOf ts body s1) as [s2 o2]. simpl in *.
    rewrite app_assoc. apply IH; [|exact H1].
    intros t' s0 acc0 Ht'. apply Hstep. right. exact Ht'.
Qed.

Lemma handleTouchStart_keeps_log (J : Overlay -> list Callback -> Prop)
    r ts s live acc :
  (forall t s0 live0 acc0, identifier t ∉ live0 -> tidy live0 s0 ->
     J s0 acc0 ->
     J (fst (touchStart1 r t s0)) (acc0 ++ snd (touchStart1 r t s0))) ->
  NoDup (ids ts) -> (forall i, i ∈ ids ts -> i ∉ live) -> tidy live s ->
  J s acc ->
  J (fst (handleTouchStart r ts s)) (acc ++ snd (handleTouchStart r ts s)).
Proof.
  intros Hstep. unfold handleTouchStart. revert s live acc.
  induction ts as [|t ts IH]; intros s live acc Hnd Hfresh Ht Hj; simpl.
  - rewrite app_nil_r. exact Hj.
  - simpl in Hnd. apply NoDup_cons in Hnd as [Hnin Hnd].
    assert (Hf : identifier t ∉ live) by (apply Hfresh; left).
    unfold andThen.
    pose proof (touchStart1_tidy r t s live Hf Ht) as Ht1.
    pose proof (Hstep t s live acc Hf Ht Hj) as Hj1.
    destruct (touchStart1 r t s) as [s1 o1]. simpl in Ht1, Hj1.
    specialize (IH s1 (live ∪ {[ identifier t ]}) (acc ++ o1) Hnd).
    destruct (forOf ts (touchStart1 r) s1) as [s2 o2]. simpl in *.
    rewrite app_assoc. apply IH; [|exact Ht1|exact Hj1].
    intros i Hi. specialize (Hfresh i (list_elem_of_further _ _ _ Hi)).
    rewrite elem_of_union, elem_of_singleton. intros [Hl | ->]; auto.
Qed.

Lemma hostOk_keeps_log (J : Overlay -> list Callback -> Prop) :
  (forall r t s live acc, identifier t ∉ live -> tidy live s -> J s acc ->
     J (fst (touchStart1 r t s)) (acc ++ snd (touchStart1 r t s))) ->
  (forall r t s acc, J s acc ->
     J (fst (touchMove1 r t s)) (acc ++ snd (touchMove1 r t s))) ->
  (forall r t s acc, J s acc ->
     J (fst (touchEnd1 r t s)) (acc ++ snd (touchEnd1 r t s))) ->
  (forall w h s acc, J s acc ->
     J (fst (onLayout w h s)) (acc ++ snd (onLayout w h s))) ->
  forall evs live s acc,
    hostOk live evs -> activeInSync s -> tidy live s -> J s acc ->
    J (fst (runEvents evs s)) (acc ++ snd (runEvents evs s)).
Proof.
  intros Hs Hm He Hl evs.
  induction evs as [|ev evs IH]; intros live s acc Hok Hsync Ht Hj.
  - simpl. rewrite app_nil_r. exact Hj.
  - destruct (dispatch_tidy ev evs s live Hok Hsync Ht)
      as (live1 & Hok1 & Ht1).
    pose proof (dispatch_sync ev s Hsync) as Hsync1.
    assert (Hj1 : J (fst (dispatch ev s)) (acc ++ snd (dispatch ev s))).
    { destruct ev as [ts|ts|ts|ts|w h]; cbn [dispatch].
      - simpl in Hok. destruct Hok as (Hnd & Hfresh & _).
        apply (handleTouchStart_keeps_log J s ts s live acc);
          [intros; apply (Hs s _ _ live0); assumption
          | exact Hnd | exact Hfresh | exact Ht | exact Hj].
      - unfold handleTouchMove. apply forOf_keeps_log; [|exact Hj].
        intros. apply Hm. assumption.
      - unfold handleTouchEnd. apply forOf_keeps_log; [|exact Hj].
        intros. apply He. assumption.
      - unfold handleTouchEnd. apply forOf_keeps_log; [|exact Hj].
        intros. apply He. assumption.
      - apply Hl, Hj. }
    simpl. unfold andThen.
    destruct (dispatch ev s) as [s1 o1]. simpl in *.
    specialize (IH live1 s1 (acc ++ o1) Hok1 Hsync1 Ht1 Hj1).
    destruct (runEvents evs s1) as [s2 o2]. simpl in *.
    rewrite app_assoc. exact IH.
Qed.

Lemma pressCount_app a b :
  pressCount (a ++ b) = (pressCount a + pressCount b)%nat.
Proof. unfold pressCount. rewrite List.filter_app, length_app. reflexivity. Qed.

Lemma releaseCount_app a b :
  releaseCount (a ++ b) = (releaseCount a + releaseCount b)%nat.
Proof.
  unfold releaseCount. rewrite List.filter_app, length_app. reflexivity.
Qed.

Lemma size_delete_Some (m : gmap TouchId ActionType) i b :
  m !! i = Some b -> size m = S (size (delete i m)).
Proof.
  intros H. rewrite <- (insert_id m i b H) at 1.
  rewrite <- insert_delete_eq.
  apply map_size_insert_None, lookup_delete_eq.
Qed.

Lemma tidy_fresh live s id :
  tidy live s -> id ∉ live -> buttonTouches s !! id = None.
Proof.
  intros [Hb _] Hf. destruct (buttonTouches s !! id) eqn:H; [|reflexivity].
  exfalso. apply Hf, Hb. right. eauto.
Qed.

(** For a host that never begins an identifier that is still down, the
    button callbacks balance against the button table: after any events the
    number of [onButtonPress] calls so far is the number of
    [onButtonRelease] calls so far plus the number of touches in the
    table. *)
Theorem presses_balance_releases (window : Size) (evs : list HostEvent) :
  hostOk ∅ evs ->
  let s := fst (runEvents evs (initial window)) in
  let outs := snd (runEvents evs (initial window)) in
  pressCount outs = (releaseCount outs + size (buttonTouches s))%nat.
Proof.
  intros Hok s outs.
  change outs with ([] ++ outs). unfold s, outs.
  apply (hostOk_keeps_log
           (fun s acc => pressCount acc =
                         (releaseCount acc + size (buttonTouches s))%nat))
    with (live := ∅).
  - intros r t s0 live acc Hf Ht Hj.
    pose proof (tidy_fresh live s0 _ Ht Hf) as Hnone.
    rewrite pressCount_app, releaseCount_app.
    destruct (touchStart1_cases r t s0)
      as [(_ & _ & ->) | [(btn & _ & ->) | ->]]; simpl.
    + unfold pressCount, releaseCount in *. simpl. lia.
    + rewrite (map_size_insert_None _ _ _ Hnone).
      unfold pressCount, releaseCount in *. simpl. lia.
    + unfold pressCount, releaseCount in *. simpl. lia.
  - intros r t s0 acc Hj. rewrite pressCount_app, releaseCount_app.
    destruct (touchMove1_shape r t s0) as [-> | [_ ->]]; simpl;
      unfold pressCount, releaseCount in *; simpl; lia.
  - intros r t s0 acc Hj. rewrite pressCount_app, releaseCount_app.
    rewrite touchEnd1_shape. cbv zeta.
    destruct (buttonTouches s0 !! identifier t) as [btn|] eqn:Hb.
    + pose proof (size_delete_Some _ _ _ Hb) as Hsz.
      destruct (bool_decide _ && joyActive r); simpl;
        unfold pressCount, releaseCount in *; simpl; lia.
    + destruct (bool_decide _ && joyActive r); simpl;
        unfold pressCount, releaseCount in *; simpl; lia.
  - intros w h s0 acc Hj. unfold onLayout.
    destruct (truthy w && truthy h); simpl; rewrite app_nil_r; exact Hj.
  - exact Hok.
  - split; [discriminate | intros H; contradiction].
  - apply initial_tidy.
  - reflexivity.
Qed.

(** For a host that never begins an identifier that is still down, every
    button in the pressed set is in the button table for some touch: the
    overlay never shows a button pressed that no touch holds. *)
Theorem pressed_buttons_are_held (window : Size) (evs : list HostEvent) :
  hostOk ∅ evs -> pressedAreHeld (fst (runEvents evs (initial window))).
Proof.
  intros Hok.
  pose proof (hostOk_keeps_log (fun s _ => pressedAreHeld s)) as H.
  apply (fun a b c d => H a b c d evs ∅ (initial window) [] Hok).
  - intros r t s0 live acc Hf Ht Hj.
    pose proof (tidy_fresh live s0 _ Ht Hf) as Hnone.
    destruct (touchStart1_cases r t s0)
      as [(_ & _ & ->) | [(btn & _ & ->) | ->]]; simpl; try exact Hj.
    intros b Hb. simpl in Hb. apply elem_of_union in Hb as [Hb | Hb].
    + destruct (Hj b Hb) as [id0 Hid0]. exists id0. simpl.
      rewrite lookup_insert_ne; [exact Hid0|]. intros <-. congruence.
    + apply elem_of_singleton in Hb as ->. exists (identifier t).
      simpl. apply lookup_insert_eq.
  - intros r t s0 acc Hj.
    destruct (touchMove1_shape r t s0) as [-> | [_ ->]]; exact Hj.
  - intros r t s0 acc Hj. rewrite touchEnd1_shape. cbv zeta.
    destruct (buttonTouches s0 !! identifier t) as [btn|] eqn:Hb.
    + intros b Hin.
      assert (Hin' : b ∈ pressedButtons s0 /\ b <> btn).
      { destruct (bool_decide _ && joyActive r); simpl in Hin;
          apply elem_of_difference in Hin as [H1 H2];
          rewrite elem_of_singleton in H2; auto. }
      destruct Hin' as [Hin1 Hne]. destruct (Hj b Hin1) as [id0 Hid0].
      exists id0.
      assert (Hid : identifier t <> id0) by (intros <-; congruence).
      destruct (bool_decide _ && joyActive r); simpl;
        rewrite lookup_delete_ne by exact Hid; exact Hid0.
    + destruct (bool_decide _ && joyActive r); simpl; exact Hj.
  - intros w h s0 acc Hj. unfold onLayout.
    destruct (truthy w && truthy h); exact Hj.
  - split; [discriminate | intros H0; contradiction].
  - apply initial_tidy.
  - intros b Hb. simpl in Hb. apply elem_of_empty in Hb. contradiction.
Qed.

(** ** The game screen behind the overlay *)

Lemma runEvents_keeps_log (J : Overlay -> list Callback -> Prop) :
  (forall r t s acc, J s acc ->
     J (fst (touchStart1 r t s)) (acc ++ snd (touchStart1 r t s))) ->
  (forall r t s acc, J s acc ->
     J (fst (touchMove1 r t s)) (acc ++ snd (touchMove1 r t s))) ->
  (forall r t s acc, J s acc ->
     J (fst (touchEnd1 r t s)) (acc ++ snd (touchEnd1 r t s))) ->
  (forall w h s acc, J s acc ->
     J (fst (onLayout w h s)) (acc ++ snd (onLayout w h s))) ->
  forall evs s acc,
    J s acc -> J (fst (runEvents evs s)) (acc ++ snd (runEvents evs s)).
Proof.
  intros Hs Hm He Hl evs.
  induction evs as [|ev evs IH]; intros s acc Hj.
  - simpl. rewrite app_nil_r. exact Hj.
  - assert (Hj1 : J (fst (dispatch ev s)) (acc ++ snd (dispatch ev s))).
    { destruct ev as [ts|ts|ts|ts|w h]; cbn [dispatch].
      - unfold handleTouchStart. apply forOf_keeps_log; [|exact Hj].
        intros. apply Hs. assumption.
      - unfold handleTouchMove. apply forOf_keeps_log; [|exact Hj].
        intros. apply Hm. assumption.
      - unfold handleTouchEnd. apply forOf_keeps_log; [|exact Hj].
        intros. apply He. assumption.
      - unfold handleTouchEnd. apply forOf_keeps_log; [|exact Hj].
        intros. apply He. assumption.
      - apply Hl, Hj. }
    simpl. unfold andThen.
    destruct (dispatch ev s) as [s1 o1]. simpl in *.
    specialize (IH s1 (acc ++ o1) Hj1).
    destruct (runEvents evs s1) as [s2 o2]. simpl in *.
    rewrite app_assoc. exact IH.
Qed.

Lemma deliverAll_app a b g :
  deliverAll (a ++ b) g = deliverAll b (deliverAll a g).
Proof. unfold deliverAll. apply fold_left_app. Qed.

(** After any events, the buttons the game screen holds active are exactly
    the buttons the overlay shows pressed. *)
Theorem screen_buttons_mirror_overlay (window : Size)
    (evs : list HostEvent) :
  activeButtons (screenAfter window evs) =
  pressedButtons (fst (runEvents evs (initial window))).
Proof.
  unfold screenAfter.
  change (snd (runEvents evs (initial window)))
    with ([] ++ snd (runEvents evs (initial window))).
  apply (runEvents_keeps_log
           (fun s acc => activeButtons (deliverAll acc initialScreen) =
                         pressedButtons s)).
  - intros r t s acc Hj. rewrite deliverAll_app.
    destruct (touchStart1_cases r t s)
      as [(_ & _ & ->) | [(btn & _ & ->) | ->]]; simpl; try exact Hj.
    rewrite Hj. reflexivity.
  - intros r t s acc Hj. rewrite deliverAll_app.
    destruct (touchMove1_shape r t s) as [-> | [_ ->]]; exact Hj.
  - intros r t s acc Hj. rewrite deliverAll_app, touchEnd1_shape. cbv zeta.
    destruct (bool_decide _ && joyActive r);
      destruct (buttonTouches s !! identifier t); simpl;
      rewrite ?Hj; try reflexivity; exact Hj.
  - intros w h s acc Hj. unfold onLayout.
    destruct (truthy w && truthy h); simpl; rewrite app_nil_r; exact Hj.
  - reflexivity.
Qed.


Lemma joystickData_inRange dx dy :
  0 < maxDistance -> inRange (joystickData dx dy).
Proof.
  intros Hm. destruct (joystickData_fields dx dy) as (Hx & Hy & Ha & _).
  cbv zeta in *. unfold inRange. rewrite Hx, Hy, Ha.
  split; [apply clamp_range|]. split; [apply clamp_range|].
  split; [apply Rmod_range; lra|].
  apply joystickData_distance_range, Hm.
Qed.

Lemma zeroData_inRange : inRange zeroData.
Proof. unfold inRange, zeroData. simpl. lra. Qed.

Lemma screen_vector_inRange window evs :
  0 < maxDistance ->
  inRange (screenJoystickData (screenAfter window evs)).
Proof.
  intros Hm. unfold screenAfter.
  change (snd (runEvents evs (initial window)))
    with ([] ++ snd (runEvents evs (initial window))).
  apply (runEvents_keeps_log
           (fun s acc =>
              inRange (screenJoystickData (deliverAll acc initialScreen)))).
  - intros r t s acc Hj. rewrite deliverAll_app.
    destruct (touchStart1_cases r t s)
      as [(_ & _ & ->) | [(btn & _ & ->) | ->]]; simpl; try exact Hj.
    apply joystickData_inRange, Hm.
  - intros r t s acc Hj. rewrite deliverAll_app.
    destruct (touchMove1_shape r t s) as [-> | [Hs ->]]; simpl;
      [exact Hj|]. apply joystickData_inRange, Hm.
  - intros r t s acc Hj. rewrite deliverAll_app, touchEnd1_shape. cbv zeta.
    destruct (bool_decide _ && joyActive r);
      destruct (buttonTouches s !! identifier t); simpl;
      try exact Hj; apply zeroData_inRange.
  - intros w h s acc Hj. unfold onLayout.
    destruct (truthy w && truthy h); simpl; rewrite app_nil_r; exact Hj.
  - apply zeroData_inRange.
Qed.

(** ** The stand-alone joystick *)

Lemma find_first (id : TouchId) (before after : list Touch) (t : Touch) :
  identifier t = id ->
  (forall t0, t0 ∈ before -> identifier t0 <> id) ->
  List.find (fun t0 => bool_decide (identifier t0 = id))
            (before ++ t :: after) = Some t.
Proof.
  intros Hid Hb. induction before as [|t0 before IH]; simpl.
  - rewrite bool_decide_eq_true_2 by exact Hid. reflexivity.
  - rewrite bool_decide_eq_false_2 by (apply Hb; left).
    apply IH. intros t1 Ht1. apply Hb. right. exact Ht1.
Qed.

Lemma find_absent (id : TouchId) (ts : list Touch) :
  id ∉ ids ts ->
  List.find (fun t0 => bool_decide (identifier t0 = id)) ts = None.
Proof.
  intros Hn. induction ts as [|t0 ts IH]; [reflexivity|]. simpl.
  assert (Hne : identifier t0 <> id).
  { intros <-. apply Hn. left. }
  rewrite bool_decide_eq_false_2 by exact Hne.
  apply IH. intros Hin. apply Hn. right. exact Hin.
Qed.

Lemma ended_iff (o : option TouchId) (ts : list Touch) :
  existsb (fun t => bool_decide (Some (identifier t) = o)) ts = true <->
  exists id, o = Some id /\ id ∈ ids ts.
Proof.
  rewrite existsb_exists. split.
  - intros (t & Hin & Hd). apply bool_decide_eq_true in Hd.
    exists (identifier t). split; [congruence|].
    unfold ids. apply list_elem_of_fmap. exists t. split; [reflexivity|].
    apply list_elem_of_In. exact Hin.
  - intros (id & -> & Hin). unfold ids in Hin.
    apply list_elem_of_fmap in Hin as (t & -> & Hin).
    exists t. split; [apply list_elem_of_In; exact Hin|].
    apply bool_decide_eq_true. reflexivity.
Qed.

Lemma VirtualJoystick_run_keeps (I : VirtualJoystick -> Prop) :
  (forall ev v, I v -> I (fst (VirtualJoystick_dispatch ev v))) ->
  forall evs v, I v -> I (fst (VirtualJoystick_run evs v)).
Proof.
  intros Hd evs. induction evs as [|ev evs IH]; intros v Hi; [exact Hi|].
  simpl. pose proof (Hd ev v Hi) as H1.
  destruct (VirtualJoystick_dispatch ev v) as [v1 o1].
  specialize (IH v1 H1). destruct (VirtualJoystick_run evs v1). exact IH.
Qed.

(** After any events the stand-alone joystick is active exactly when it has
    a touch; without a touch its knob is at the centre, and with
    [0 < maxDistance] the knob is never further than [maxDistance] from the
    centre. *)
Theorem VirtualJoystick_invariant (v : VirtualJoystick) :
  VirtualJoystick_reachable v ->
  (isActive v = true <-> activeTouchId v <> None) /\
  (activeTouchId v = None -> position v = {| x := 0; y := 0 |}) /\
  (0 < maxDistance ->
   euclid (x (position v)) (y (position v)) 0 0 <= maxDistance).
Proof.
  intros (evs & ->).
  apply (VirtualJoystick_run_keeps
           (fun v => (isActive v = true <-> activeTouchId v <> None) /\
                     (activeTouchId v = None ->
                      position v = {| x := 0; y := 0 |}) /\
                     (0 < maxDistance ->
                      euclid (x (position v)) (y (position v)) 0 0
                        <= maxDistance))).
  - intros ev v (Ha & Hp & Hk).
    assert (Hend : forall e,
      let v' := fst (VirtualJoystick_handleTouchEnd e v) in
      (isActive v' = true <-> activeTouchId v' <> None) /\
      (activeTouchId v' = None -> position v' = {| x := 0; y := 0 |}) /\
      (0 < maxDistance ->
       euclid (x (position v')) (y (position v')) 0 0 <= maxDistance)).
    { intros e. cbv zeta. unfold VirtualJoystick_handleTouchEnd.
      destruct (existsb _ _); simpl; [|tauto].
      split; [split; [discriminate | intros H; contradiction]|].
      split; [reflexivity|]. intros Hm. rewrite euclid_center. lra. }
    destruct ev as [e|e|e|e]; simpl; try apply Hend.
    + unfold VirtualJoystick_handleTouchStart.
      destruct (activeTouchId v) eqn:Hid; simpl; [rewrite Hid; tauto|].
      destruct (last (touches e)); simpl; [|rewrite Hid; tauto].
      split; [split; [discriminate | reflexivity]|].
      split; [discriminate|]. exact Hk.
    + unfold VirtualJoystick_handleTouchMove.
      destruct (activeTouchId v) eqn:Hid; simpl; [|rewrite Hid; tauto].
      destruct (List.find _ _); simpl; [|rewrite Hid; tauto].
      rewrite ?Hid. split; [exact Ha|].
      split; [discriminate|]. apply knobOffset_within.
  - simpl. split; [split; [discriminate | intros H; contradiction]|].
    split; [reflexivity|]. intros Hm. rewrite euclid_center. lra.
Qed.

(** The stand-alone joystick stays with the touch it has: while it has one,
    a start event changes nothing and a move keeps the touch and the start
    position; an end or cancel that does not carry the touch changes
    nothing, and one that carries it, however often, frees the joystick,
    centres the knob and calls [onRelease] once.  Without a touch, moves
    and ends do nothing. *)
Theorem VirtualJoystick_keeps_its_touch (v : VirtualJoystick)
    (e : GestureResponderEvent) :
  (forall id, activeTouchId v = Some id ->
     VirtualJoystick_handleTouchStart e v = (v, []) /\
     activeTouchId (fst (VirtualJoystick_handleTouchMove e v)) = Some id /\
     startPosition (fst (VirtualJoystick_handleTouchMove e v)) =
       startPosition v /\
     (id ∉ ids (changedTouches e) ->
      VirtualJoystick_handleTouchEnd e v = (v, [])) /\
     (id ∈ ids (changedTouches e) ->
      VirtualJoystick_handleTouchEnd e v =
        (VirtualJoystick_released v, [onRelease]))) /\
  (activeTouchId v = None ->
     VirtualJoystick_handleTouchMove e v = (v, []) /\
     VirtualJoystick_handleTouchEnd e v = (v, [])) /\
  VirtualJoystick_dispatch (JoyCancel e) v =
    VirtualJoystick_dispatch (JoyEnd e) v.
Proof.
  split; [|split; [|reflexivity]].
  - intros id Hid. split; [|split; [|split; [|split]]].
    + unfold VirtualJoystick_handleTouchStart. rewrite Hid. reflexivity.
    + unfold VirtualJoystick_handleTouchMove. rewrite Hid.
      destruct (List.find _ _); simpl; first [exact Hid | reflexivity].
    + unfold VirtualJoystick_handleTouchMove. rewrite Hid.
      destruct (List.find _ _); reflexivity.
    + intros Hn. unfold VirtualJoystick_handleTouchEnd.
      destruct (existsb _ _) eqn:He; [|reflexivity].
      apply ended_iff in He as (id' & Hid' & Hin).
      exfalso. apply Hn. congruence.
    + intros Hin. unfold VirtualJoystick_handleTouchEnd.
      assert (He : existsb
                (fun t => bool_decide (Some (identifier t) = activeTouchId v))
                (changedTouches e) = true).
      { apply ended_iff. exists id. auto. }
      rewrite He. reflexivity.
  - intros Hn. split.
    + unfold VirtualJoystick_handleTouchMove. rewrite Hn. reflexivity.
    + unfold VirtualJoystick_handleTouchEnd.
      destruct (existsb _ _) eqn:He; [|reflexivity].
      apply ended_iff in He as (id' & Hid' & _). congruence.
Qed.

(** The stand-alone joystick measures from where its touch began: after a
    start that binds the last touch [t0] of the event, a move in which [t1]
    is the first touch with that identifier calls [onMove] once, with the
    data of the offset of [t1] from [t0]; with [0 < maxDistance] the data
    is in range, and it is the zero vector when [t1] is where [t0] was. *)
Theorem VirtualJoystick_vector_from_start (v : VirtualJoystick)
    (e0 e1 : GestureResponderEvent) (t0 t1 : Touch)
    (before after : list Touch) :
  activeTouchId v = None ->
  last (touches e0) = Some t0 ->
  touches e1 = before ++ t1 :: after ->
  identifier t1 = identifier t0 ->
  (forall t, t ∈ before -> identifier t <> identifier t0) ->
  let d := joystickData (pageX t1 - pageX t0) (pageY t1 - pageY t0) in
  snd (VirtualJoystick_run [JoyStart e0; JoyMove e1] v) = [onMove d] /\
  position (fst (VirtualJoystick_run [JoyStart e0; JoyMove e1] v)) =
    knobOffset (pageX t1 - pageX t0) (pageY t1 - pageY t0) /\
  (0 < maxDistance -> inRange d) /\
  (0 < maxDistance -> pageX t1 = pageX t0 -> pageY t1 = pageY t0 ->
   d = zeroData).
Proof.
  intros Hn Hl He1 Hid Hb d.
  assert (Hrun : VirtualJoystick_run [JoyStart e0; JoyMove e1] v =
    ({| isActive := true;
        position := knobOffset (pageX t1 - pageX t0) (pageY t1 - pageY t0);
        activeTouchId := Some (identifier t0);
        startPosition := {| x := pageX t0; y := pageY t0 |} |},
     [onMove d])).
  { simpl. unfold VirtualJoystick_handleTouchStart. rewrite Hn, Hl.
    unfold VirtualJoystick_handleTouchMove. simpl.
    rewrite He1, (find_first (identifier t0) before after t1 Hid Hb).
    reflexivity. }
  rewrite Hrun. simpl.
  split; [reflexivity|]. split; [reflexivity|].
  split; [apply joystickData_inRange|].
  intros Hm Hx Hy. unfold d.
  replace (pageX t1 - pageX t0) with 0 by lra.
  replace (pageY t1 - pageY t0) with 0 by lra.
  apply (joystickData_origin Hm).
Qed.

(** ** The stand-alone buttons *)

Lemma handleButtonTouchEndFrom_none b changed a :
  (forall t, t ∈ changed -> activeTouches a !! identifier t <> Some b) ->
  handleButtonTouchEndFrom b changed a = (a, []).
Proof.
  induction changed as [|t changed IH]; intros H; [reflexivity|]. simpl.
  rewrite bool_decide_eq_false_2 by (apply H; left).
  apply IH. intros t0 Ht0. apply H. right. exact Ht0.
Qed.

Lemma handleButtonTouchEndFrom_first b before t after a :
  (forall t0, t0 ∈ before -> activeTouches a !! identifier t0 <> Some b) ->
  activeTouches a !! identifier t = Some b ->
  handleButtonTouchEndFrom b (before ++ t :: after) a =
    (ActionButtons_released b (identifier t) a, [onButtonRelease b]).
Proof.
  intros Hb Ht. induction before as [|t0 before IH]; simpl.
  - rewrite bool_decide_eq_true_2 by exact Ht. reflexivity.
  - rewrite bool_decide_eq_false_2 by (apply Hb; left).
    apply IH. intros t1 Ht1. apply Hb. right. exact Ht1.
Qed.

Lemma handleButtonTouchEndFrom_cases b changed a :
  handleButtonTouchEndFrom b changed a = (a, []) \/
  exists t, t ∈ changed /\ activeTouches a !! identifier t = Some b /\
    handleButtonTouchEndFrom b changed a =
      (ActionButtons_released b (identifier t) a, [onButtonRelease b]).
Proof.
  induction changed as [|t changed IH]; [left; reflexivity|]. simpl.
  case_bool_decide as Hd.
  - right. exists t. split; [left|]. split; [exact Hd | reflexivity].
  - destruct IH as [IH | (t0 & Hin & Hb & IH)]; [left; exact IH|].
    right. exists t0. split; [right; exact Hin|]. split; assumption.
Qed.

(** The end handler of a stand-alone button releases the first ended touch
    that holds this button and stops there: it removes that one entry,
    unpresses the button and calls [onButtonRelease] once.  Every other
    entry of the table stays, also those of later touches of the same event
    that hold this button, and with no ended touch on this button the
    handler does nothing. *)
Theorem ActionButtons_end_releases_first (b : ActionType)
    (e : GestureResponderEvent) (a : ActionButtons) :
  ((forall t, t ∈ changedTouches e ->
      activeTouches a !! identifier t <> Some b) ->
   handleButtonTouchEnd b e a = (a, [])) /\
  (forall before t after,
     changedTouches e = before ++ t :: after ->
     (forall t0, t0 ∈ before ->
        activeTouches a !! identifier t0 <> Some b) ->
     activeTouches a !! identifier t = Some b ->
     handleButtonTouchEnd b e a =
       (ActionButtons_released b (identifier t) a, [onButtonRelease b]) /\
     forall id, id <> identifier t ->
       activeTouches (fst (handleButtonTouchEnd b e a)) !! id =
       activeTouches a !! id) /\
  (forall id b', b' <> b -> activeTouches a !! id = Some b' ->
     activeTouches (fst (handleButtonTouchEnd b e a)) !! id = Some b') /\
  (size (activeTouches a) <=
   S (size (activeTouches (fst (handleButtonTouchEnd b e a)))))%nat.
Proof.
  unfold handleButtonTouchEnd. split; [|split; [|split]].
  - apply handleButtonTouchEndFrom_none.
  - intros before t after -> Hb Ht.
    rewrite (handleButtonTouchEndFrom_first b before t after a Hb Ht).
    split; [reflexivity|]. intros id Hne. simpl.
    apply lookup_delete_ne. congruence.
  - intros id b' Hne Hid.
    destruct (handleButtonTouchEndFrom_cases b (changedTouches e) a)
      as [-> | (t & _ & Ht & ->)]; simpl; [exact Hid|].
    rewrite lookup_delete_ne; [exact Hid|]. intros <-. congruence.
  - destruct (handleButtonTouchEndFrom_cases b (changedTouches e) a)
      as [-> | (t & _ & Ht & ->)]; simpl; [lia|].
    rewrite (size_delete_Some _ _ _ Ht). lia.
Qed.

(** A tap on a stand-alone button is a round trip: the start handler enters
    the last touch of the event for the button, presses it and calls
    [onButtonPress]; when that touch had no entry and the button was not
    pressed, the end of the touch gives back the state from before the
    start and calls [onButtonRelease].  A start event without touches does
    nothing. *)
Theorem ActionButtons_tap_round_trip (b : ActionType)
    (e0 e1 : GestureResponderEvent) (a : ActionButtons) (t t' : Touch) :
  (touches e0 = [] -> handleButtonTouchStart b e0 a = (a, [])) /\
  (last (touches e0) = Some t ->
   changedTouches e1 = [t'] ->
   identifier t' = identifier t ->
   activeTouches a !! identifier t = None ->
   b ∉ ActionButtons_pressedButtons a ->
   snd (handleButtonTouchStart b e0 a) = [onButtonPress b] /\
   activeTouches (fst (handleButtonTouchStart b e0 a)) !! identifier t =
     Some b /\
   b ∈ ActionButtons_pressedButtons (fst (handleButtonTouchStart b e0 a)) /\
   handleButtonTouchEnd b e1 (fst (handleButtonTouchStart b e0 a)) =
     (a, [onButtonRelease b])).
Proof.
  split.
  - intros H. unfold handleButtonTouchStart. rewrite H. reflexivity.
  - intros Hl Hc Hid Hn Hp. unfold handleButtonTouchStart. rewrite Hl. simpl.
    split; [reflexivity|]. split; [apply lookup_insert_eq|].
    split; [apply elem_of_union_r, elem_of_singleton; reflexivity|].
    unfold handleButtonTouchEnd. rewrite Hc. simpl. rewrite Hid.
    rewrite bool_decide_eq_true_2 by apply lookup_insert_eq.
    f_equal. destruct a as [pb at0]. simpl in *. f_equal.
    + apply set_eq. intros c. rewrite elem_of_difference, elem_of_union,
        elem_of_singleton. split.
      * intros [[H | H] Hne]; [exact H | contradiction].
      * intros H. split; [left; exact H | intros ->; contradiction].
    + rewrite delete_insert_eq. apply delete_id. exact Hn.
Qed.

(** ** The page under the overlay *)

Lemma inCircle_box px py c radius :
  inCircle px py c radius ->
  x c - radius <= px <= x c + radius /\
  y c - radius <= py <= y c + radius.
Proof.
  intros H. assert (Hr : 0 <= radius).
  { unfold inCircle in H. pose proof (euclid_nonneg px py (x c) (y c)). lra. }
  apply inCircle_sq in H; [|exact Hr].
  set (u := px - x c) in *. set (w := py - y c) in *.
  assert (- radius <= u <= radius) by nra.
  assert (- radius <= w <= radius) by nra.
  unfold u, w in *. lra.
Qed.

(** On Android the game screen injects a listener that decides by the first
    touch that is down, whichever touch begins.  For a page as wide and as
    high as the overlay and a joystick smaller than 210, it stops the event
    when that first touch is within the joystick's circle or a button's
    circle, whatever the other touches are; when the first touch is outside
    both corners the event passes, whatever the other touches are, also
    when one of them is on a control.  On the other platforms nothing is
    injected. *)
Theorem injected_listener_covers_controls (r : Overlay) (first : ClientTouch)
    (others : list ClientTouch) :
  joystickSize < 210 ->
  injectedJavaScript android = Some injectedListener /\
  (forall os, os <> android -> injectedJavaScript os = None) /\
  (hitTestJoystick r (clientX first) (clientY first) = true \/
   is_Some (hitTestButtons r (clientX first) (clientY first)) ->
   injectedListener (first :: others) (width (overlaySize r))
                    (height (overlaySize r)) = Some true) /\
  (forall innerWidth innerHeight,
     250 <= clientX first <= innerWidth - 300 ->
     injectedListener (first :: others) innerWidth innerHeight =
       Some false).
Proof.
  intros Hjs. split; [reflexivity|].
  split; [intros [] H; try reflexivity; contradiction H; reflexivity|].
  set (px := clientX first). set (py := clientY first).
  split.
  - intros [Hj | [a Hb]]; unfold injectedListener; fold px py.
    + apply hitTestJoystick_inCircle, inCircle_box in Hj.
      unfold joystickCenter, joystickLeft, joystickBottom in Hj.
      simpl in Hj.
      assert (H1 : Rgtb 250 px = true) by (apply Rgtb_true; lra).
      assert (H2 : Rgtb py (height (overlaySize r) - 250) = true)
        by (apply Rgtb_true; lra).
      rewrite H1, H2. reflexivity.
    + destruct (Rgtb 250 px && Rgtb py (height (overlaySize r) - 250));
        [reflexivity|].
      apply hitTestButtonsIn_Some in Hb
        as (before & b & after & Heq & _ & Hin & _).
      assert (Hbb : b ∈ buttons).
      { rewrite Heq. apply elem_of_app. right. left. }
      apply inCircle_box in Hin.
      unfold getButtonCenter, buttonRadius in Hin. simpl in Hin.
      assert (H1 : Rgtb px (width (overlaySize r) - 300) = true).
      { apply Rgtb_true. apply in_buttons in Hbb.
        destruct Hbb as [-> | [-> | [-> | ->]]]; simpl in Hin; lra. }
      assert (H2 : Rgtb py (height (overlaySize r) - 300) = true).
      { apply Rgtb_true. apply in_buttons in Hbb.
        destruct Hbb as [-> | [-> | [-> | ->]]]; simpl in Hin; lra. }
      rewrite H1, H2. reflexivity.
  - intros innerWidth innerHeight Hx. unfold injectedListener. fold px py.
    assert (H1 : Rgtb 250 px = false) by (apply Rgtb_false; lra).
    assert (H2 : Rgtb px (innerWidth - 300) = false)
      by (apply Rgtb_false; lra).
    rewrite H1, H2. reflexivity.
Qed.

(** ** Touches that are not the joystick's *)

Lemma others_leave_joystick ev s j :
  joystickTouchId s = Some j ->
  (forall t, t ∈ touchesOf ev -> identifier t <> j) ->
  joystickTouchId (fst (dispatch ev s)) = Some j /\
  forall c, c ∈ snd (dispatch ev s) -> isJoystickCallback c = false.
Proof.
  intros Hj Hne.
  set (J := fun (s0 : Overlay) (acc : list Callback) =>
              joystickTouchId s0 = Some j /\
              forall c, c ∈ acc -> isJoystickCallback c = false).
  assert (Hadd : forall s0 s1 acc o,
            joystickTouchId s1 = Some j ->
            (forall c, c ∈ o -> isJoystickCallback c = false) ->
            J s0 acc -> J s1 (acc ++ o)).
  { intros s0 s1 acc o H1 H2 [_ H3]. split; [exact H1|].
    intros c Hc. apply elem_of_app in Hc as [Hc | Hc]; auto. }
  assert (H0 : J s []).
  { split; [exact Hj|]. intros c Hc. inversion Hc. }
  assert (Hres : J (fst (dispatch ev s)) ([] ++ snd (dispatch ev s))).
  { destruct ev as [ts|ts|ts|ts|w h]; cbn [dispatch]; simpl in Hne.
    - unfold handleTouchStart. apply forOf_keeps_log; [|exact H0].
      intros t s0 acc Ht Hs0. pose proof Hs0 as [Hj0 _].
      destruct (touchStart1_cases s t s0)
        as [(Hn & _) | [(btn & _ & ->) | ->]].
      + congruence.
      + apply (Hadd s0); [exact Hj0 | | exact Hs0].
        intros c Hc. apply list_elem_of_singleton in Hc as ->. reflexivity.
      + apply (Hadd s0); [exact Hj0 | | exact Hs0].
        intros c Hc. inversion Hc.
    - unfold handleTouchMove. apply forOf_keeps_log; [|exact H0].
      intros t s0 acc Ht Hs0. pose proof Hs0 as [Hj0 _].
      destruct (touchMove1_shape s t s0) as [-> | [Hb _]].
      + apply (Hadd s0); [exact Hj0 | | exact Hs0].
        intros c Hc. inversion Hc.
      + exfalso. apply (Hne t Ht). congruence.
    - unfold handleTouchEnd. apply forOf_keeps_log; [|exact H0].
      intros t s0 acc Ht Hs0. pose proof Hs0 as [Hj0 _].
      rewrite touchEnd1_shape. cbv zeta.
      rewrite bool_decide_eq_false_2
        by (rewrite Hj0; intros [= H]; apply (Hne t Ht); exact H).
      simpl. destruct (buttonTouches s0 !! identifier t); simpl.
      * apply (Hadd s0); [exact Hj0 | | exact Hs0].
        intros c Hc. apply list_elem_of_singleton in Hc as ->. reflexivity.
      * apply (Hadd s0); [exact Hj0 | | exact Hs0].
        intros c Hc. inversion Hc.
    - unfold handleTouchEnd. apply forOf_keeps_log; [|exact H0].
      intros t s0 acc Ht Hs0. pose proof Hs0 as [Hj0 _].
      rewrite touchEnd1_shape. cbv zeta.
      rewrite bool_decide_eq_false_2
        by (rewrite Hj0; intros [= H]; apply (Hne t Ht); exact H).
      simpl. destruct (buttonTouches s0 !! identifier t); simpl.
      * apply (Hadd s0); [exact Hj0 | | exact Hs0].
        intros c Hc. apply list_elem_of_singleton in Hc as ->. reflexivity.
      * apply (Hadd s0); [exact Hj0 | | exact Hs0].
        intros c Hc. inversion Hc.
    - unfold onLayout. destruct (truthy w && truthy h); simpl;
        (split; [exact Hj | intros c Hc; inversion Hc]). }
  exact Hres.
Qed.

End ControlsOverlay.

(** ** The default overlay in a window of 800 by 400 *)

Ltac circle_arith :=
  cbv [inCircle joystickCenter getButtonCenter x y width height overlaySize
       s0 sStick initial window0 setJoyActive setJoystickTouchId
       buttonRadius joystickLeft joystickBottom right bottom
       pageX pageY at_];
  first
    [ apply euclid_le_sq; [lra | nra]
    | let H := fresh in
      intros H; apply euclid_le_sq in H; [nra | lra] ].

Lemma default_maxDistance : maxDistance 140 = 50.
Proof. unfold maxDistance. lra. Qed.

Lemma default_attackCentre r :
  overlaySize r = window0 ->
  hitTestJoystick 140 r 750 290 = false /\
  hitTestButtons r 750 290 = Some attack.
Proof.
  intros Hw. split.
  - destruct (hitTestJoystick 140 r 750 290) eqn:H; [|reflexivity].
    exfalso. apply hitTestJoystick_inCircle in H. revert H.
    unfold joystickCenter. rewrite Hw. circle_arith.
  - apply hitTestButtonsIn_Some.
    exists [], {| type := attack; right := 20; bottom := 80 |}, (tail buttons).
    split; [reflexivity|]. split; [reflexivity|]. split.
    + unfold getButtonCenter. rewrite Hw. circle_arith.
    + intros b Hb. inversion Hb.
Qed.

Lemma default_jumpCentre r :
  overlaySize r = window0 ->
  hitTestJoystick 140 r 670 230 = false /\
  hitTestButtons r 670 230 = Some jump.
Proof.
  intros Hw. split.
  - destruct (hitTestJoystick 140 r 670 230) eqn:H; [|reflexivity].
    exfalso. apply hitTestJoystick_inCircle in H. revert H.
    unfold joystickCenter. rewrite Hw. circle_arith.
  - apply hitTestButtonsIn_Some.
    exists [ {| type := attack; right := 20; bottom := 80 |};
             {| type := dodge; right := 100; bottom := 20 |} ],
           {| type := jump; right := 100; bottom := 140 |},
           [ {| type := run; right := 180; bottom := 80 |} ].
    split; [reflexivity|]. split; [reflexivity|]. split.
    + unfold getButtonCenter. rewrite Hw. circle_arith.
    + intros b Hb.
      apply elem_of_cons in Hb as [-> | Hb];
        [unfold getButtonCenter; rewrite Hw; circle_arith|].
      apply elem_of_cons in Hb as [-> | Hb];
        [unfold getButtonCenter; rewrite Hw; circle_arith|].
      inversion Hb.
Qed.

Lemma default_stickCentre r :
  overlaySize r = window0 -> hitTestJoystick 140 r 100 290 = true.
Proof.
  intros Hw. apply hitTestJoystick_inCircle.
  unfold joystickCenter. rewrite Hw. circle_arith.
Qed.

Lemma began_on_button r s id (p : Point) btn :
  hitTestJoystick 140 r (x p) (y p) = false /\
  hitTestButtons r (x p) (y p) = Some btn ->
  touchStart1 140 r (at_ id p) s =
    (setPressedButtons (fun prev => prev ∪ {[ btn ]})
       (updButtonTouches (insert (NumId id) btn) s),
     [onButtonPress btn]).
Proof.
  intros [Hj Hb]. apply (touchStart1_button 140 r (at_ id p) s btn).
  - right. exact Hj.
  - exact Hb.
Qed.

Lemma run_twoOnAttack :
  buttonTouches (fst (runEvents 140 twoOnAttack (initial window0))) =
  <[NumId 2 := attack]> (<[NumId 1 := attack]> ∅).
Proof.
  unfold twoOnAttack, runEvents, dispatch, handleTouchStart, forOf, andThen.
  rewrite (began_on_button _ _ 1 attackCentre attack)
    by (apply default_attackCentre; reflexivity).
  rewrite (began_on_button _ _ 2 attackCentre attack)
    by (apply default_attackCentre; reflexivity).
  reflexivity.
Qed.

Lemma run_jumpThenAttack :
  let s := fst (runEvents 140 jumpThenAttack (initial window0)) in
  buttonTouches s = <[NumId 2 := attack]> (<[NumId 1 := jump]> ∅) /\
  pressedButtons s = ∅ ∪ {[ jump ]} ∪ {[ attack ]} /\
  joystickTouchId s = None.
Proof.
  cbv zeta.
  unfold jumpThenAttack, runEvents, dispatch, handleTouchStart, forOf, andThen.
  rewrite (began_on_button _ _ 1 jumpCentre jump)
    by (apply default_jumpCentre; reflexivity).
  cbn [fst snd skip].
  rewrite (began_on_button _ _ 2 attackCentre attack)
    by (apply default_attackCentre; reflexivity).
  repeat split.
Qed.

Lemma hostOk_twoOnAttack : hostOk ∅ twoOnAttack.
Proof.
  simpl. repeat split.
  - apply NoDup_cons. split.
    + intros H. apply list_elem_of_singleton in H. discriminate.
    + apply NoDup_singleton.
  - intros i _. apply not_elem_of_empty.
Qed.

Lemma hostOk_jumpThenAttack : hostOk ∅ jumpThenAttack.
Proof.
  simpl. repeat split.
  - apply NoDup_singleton.
  - intros i _. apply not_elem_of_empty.
  - apply NoDup_singleton.
  - intros i Hi. apply list_elem_of_singleton in Hi. subst i.
    rewrite !elem_of_union, !elem_of_empty, elem_of_singleton.
    intros [[] | [H | []]]. discriminate.
Qed.

(** C1, as stated, fails: two touches that begin on the attack button are
    both entered in the button table for it. *)
Lemma C1_two_touches_one_button :
  hostOk ∅ twoOnAttack /\
  ~ exclusiveWithSingleTouchButtons
      (fst (runEvents 140 twoOnAttack (initial window0))).
Proof.
  split; [exact hostOk_twoOnAttack|].
  intros (_ & _ & H).
  specialize (H (NumId 1) (NumId 2) attack).
  rewrite run_twoOnAttack in H.
  assert (Heq : NumId 1 = NumId 2); [|discriminate Heq].
  apply H.
  - rewrite lookup_insert_ne by discriminate. apply lookup_insert_eq.
  - apply lookup_insert_eq.
Qed.

(** The host's discipline is needed: when one identifier begins twice, on
    the joystick and then on a button, it ends up with both. *)
Lemma begin_twice_binds_twice :
  ~ hostOk ∅ sameIdTwice /\
  ~ exclusive (fst (runEvents 140 sameIdTwice (initial window0))).
Proof.
  split.
  - simpl. intros (Hnd & _). apply NoDup_cons in Hnd as [Hn _].
    apply Hn. left.
  - unfold sameIdTwice, runEvents, dispatch, handleTouchStart, forOf, andThen.
    rewrite (touchStart1_joystick 140 (initial window0) (at_ 1 stickCentre)
               (initial window0) eq_refl)
      by (apply default_stickCentre; reflexivity).
    cbv zeta.
    rewrite (touchStart1_button 140 _ (at_ 1 attackCentre) _ attack).
    + intros H. apply (H (NumId 1)). split; [reflexivity|].
      simpl. rewrite lookup_insert_eq. eauto.
    + left. discriminate.
    + apply default_attackCentre. reflexivity.
Qed.

(** C1 as amended.  After any events of a host that never begins an
    identifier that is still down, no identifier is both the joystick's
    touch and a key of the button table, and at most one touch drives the
    joystick: a begin batch never takes the joystick from the touch that
    has it, and while a touch has the joystick, an event that carries only
    other identifiers leaves the joystick with that touch and calls neither
    [onJoystickMove] nor [onJoystickRelease].  Two touches can hold two
    buttons at once: after a touch on jump and a second one on attack both
    are in the table and both buttons are pressed.  A button is not kept
    for one touch: a began touch that does not take the joystick and hits a
    button is entered in the table for that button and the button is
    pressed, whatever the table held before, and the entries of the other
    identifiers stay. *)
Theorem C1_binding_exclusivity :
  (forall joystickSize window evs, hostOk ∅ evs ->
     let s := fst (runEvents joystickSize evs (initial window)) in
     exclusive s /\ oneJoystickTouch s) /\
  (forall joystickSize s ts j, joystickTouchId s = Some j ->
     joystickTouchId (fst (dispatch joystickSize (TouchStart ts) s)) =
       Some j) /\
  (hostOk ∅ jumpThenAttack /\
   let s := fst (runEvents 140 jumpThenAttack (initial window0)) in
   binding s (NumId 1) = Some (ButtonControl jump) /\
   binding s (NumId 2) = Some (ButtonControl attack) /\
   jump ∈ pressedButtons s /\ attack ∈ pressedButtons s) /\
  (forall joystickSize s j ev, joystickTouchId s = Some j ->
     (forall t, t ∈ touchesOf ev -> identifier t <> j) ->
     joystickTouchId (fst (dispatch joystickSize ev s)) = Some j /\
     forall c, c ∈ snd (dispatch joystickSize ev s) ->
               isJoystickCallback c = false) /\
  (forall joystickSize r s t btn,
     ~ (joystickTouchId s = None /\
        inCircle (pageX t) (pageY t) (joystickCenter joystickSize r)
                 (joystickSize / 2)) ->
     hitTestButtons r (pageX t) (pageY t) = Some btn ->
     let s' := fst (touchStart1 joystickSize r t s) in
     buttonTouches s' !! identifier t = Some btn /\
     btn ∈ pressedButtons s' /\
     forall i, i <> identifier t ->
               buttonTouches s' !! i = buttonTouches s !! i).
Proof.
  split; [|split; [|split; [|split]]].
  - intros joystickSize window evs Hok s.
    assert (Hsync : activeInSync (initial window)).
    { split; [discriminate | intros H; contradiction]. }
    destruct (runEvents_tidy joystickSize evs (initial window) ∅ Hok Hsync
                (initial_tidy window)) as (live & _ & He).
    split; [exact He|].
    intros i j Hi Hj. apply binding_Joystick in Hi, Hj. congruence.
  - intros joystickSize s ts j Hj. simpl.
    apply handleTouchStart_keeps_joystick, Hj.
  - split; [exact hostOk_jumpThenAttack|].
    destruct run_jumpThenAttack as (Hb & Hp & Hj). cbv zeta in *.
    unfold binding. rewrite Hb, Hp, Hj.
    split; [|split; [|split]].
    + rewrite bool_decide_eq_false_2 by discriminate.
      rewrite lookup_insert_ne by discriminate.
      rewrite lookup_insert_eq. reflexivity.
    + rewrite bool_decide_eq_false_2 by discriminate.
      rewrite lookup_insert_eq. reflexivity.
    + apply elem_of_union_l, elem_of_union_r, elem_of_singleton. reflexivity.
    + apply elem_of_union_r, elem_of_singleton. reflexivity.
  - intros joystickSize s j ev Hj Hne.
    apply others_leave_joystick; assumption.
  - intros joystickSize r s t btn Hc Hb s'. unfold s'.
    rewrite (touchStart1_button joystickSize r t s btn
               (not_claiming joystickSize r s _ _ Hc) Hb).
    simpl. split; [apply lookup_insert_eq|].
    split; [apply elem_of_union_r, elem_of_singleton; reflexivity|].
    intros i Hi. apply lookup_insert_ne. congruence.
Qed.

Lemma default_maxDistance_pos : 0 < maxDistance 140.
Proof. rewrite default_maxDistance. lra. Qed.

Lemma clamp_above v : 1 <= v -> clamp v (-1) 1 = 1.
Proof.
  intros Hv. unfold clamp. destruct (Rlt_dec v (-1)); [lra|].
  destruct (Rlt_dec 1 v); lra.
Qed.

(** C4, as stated, fails: for the offset (100, 50) and [maxDistance] 50 the
    reported [x] and [y] are both 1, which is not the projected knob offset
    over [maxDistance], and (1, 1) does not point along (100, 50). *)
Lemma C4_output_not_projected :
  maxDistance 140 < Math.sqrt (100 * 100 + 50 * 50) /\
  ~ normalizedFromProjection 140 100 50 /\
  JoystickData.x (joystickData 140 100 50) * 50 <>
  JoystickData.y (joystickData 140 100 50) * 100.
Proof.
  assert (Hlen : maxDistance 140 < Math.sqrt (100 * 100 + 50 * 50)).
  { rewrite default_maxDistance. rewrite sqrt_sq_sum.
    replace (100 ^ 2 + 50 ^ 2) with ((100 - 0) ^ 2 + (50 - 0) ^ 2) by ring.
    apply (euclid_gt_sq 100 50 0 0 50); lra. }
  destruct (joystickData_fields 140 100 50) as (Hx & Hy & _).
  cbv zeta in Hx, Hy. rewrite default_maxDistance in Hx, Hy.
  rewrite clamp_above in Hx by lra. rewrite clamp_above in Hy by lra.
  split; [exact Hlen|]. split.
  - intros [Hpx Hpy]. rewrite Hx in Hpx. rewrite Hy in Hpy.
    rewrite default_maxDistance in Hpx, Hpy.
    destruct (knobOffset_outside 140 100 50 default_maxDistance_pos Hlen)
      as (_ & _ & _ & He).
    rewrite default_maxDistance in He.
    assert (Hkx : x (knobOffset 140 100 50) = 50) by lra.
    assert (Hky : y (knobOffset 140 100 50) = 50) by lra.
    rewrite Hkx, Hky in He.
    assert (Hle : euclid 50 50 0 0 <= 50) by lra.
    apply euclid_le_sq in Hle; lra.
  - rewrite Hx, Hy. lra.
Qed.

(** ** The theorems at work on the default overlay *)

Lemma C1_binding_exclusivity_witness :
  hostOk ∅ jumpThenAttack /\
  exclusive (fst (runEvents 140 jumpThenAttack (initial window0))).
Proof.
  split; [exact hostOk_jumpThenAttack|].
  exact (proj1 (proj1 C1_binding_exclusivity 140 window0 jumpThenAttack
                  hostOk_jumpThenAttack)).
Defined.

Lemma C2_begin_claims_joystick_witness :
  handleTouchStart 140 s0 [] s0 = (s0, []) /\
  joystickTouchId s0 = None /\
  inCircle 130 290 (joystickCenter 140 s0) (140 / 2) /\
  joystickTouchId
    (fst (handleTouchStart 140 s0 [at_ 1 {| x := 130; y := 290 |}] s0)) =
    Some (NumId 1) /\
  exists d,
    snd (handleTouchStart 140 s0 [at_ 1 {| x := 130; y := 290 |}] s0) =
      [onJoystickMove d] /\
    JoystickData.x d = 3 / 5 /\ JoystickData.y d = 0.
Proof.
  assert (Hin : inCircle 130 290 (joystickCenter 140 s0) (140 / 2))
    by circle_arith.
  split; [reflexivity|]. split; [reflexivity|]. split; [exact Hin|].
  destruct (C2_begin_claims_joystick 140 s0 s0 s0 [] [] []
              (at_ 1 {| x := 130; y := 290 |}) eq_refl eq_refl Hin)
    as (s2 & s3 & o3 & H1 & H2 & _ & _ & _ & _ & _ & Hx & Hy & _).
  simpl app in H1. rewrite H1. cbn [fst snd]. split; [exact H2|].
  exists (joystickData 140
            (pageX (at_ 1 {| x := 130; y := 290 |}) -
             x (joystickCenter 140 s0))
            (pageY (at_ 1 {| x := 130; y := 290 |}) -
             y (joystickCenter 140 s0))).
  split; [reflexivity|].
  rewrite Hx, Hy, default_maxDistance.
  cbv [joystickCenter x y pageX pageY at_ height overlaySize s0 initial
       window0 joystickLeft joystickBottom].
  unfold clamp. split.
  - destruct (Rlt_dec _ _); [lra|]. destruct (Rlt_dec _ _); lra.
  - destruct (Rlt_dec _ _); [lra|]. destruct (Rlt_dec _ _); lra.
Defined.

Lemma C3_joystick_move_output_witness :
  0 < maxDistance 140 /\
  joystickTouchId sStick = Some (NumId 1) /\
  0 <= JoystickData.distance
         (dataAt 140 sStick (at_ 1 {| x := 150; y := 290 |})) <= 1.
Proof.
  split; [exact default_maxDistance_pos|]. split; [reflexivity|].
  destruct (C3_joystick_move_output 140 sStick sStick
              (at_ 1 {| x := 150; y := 290 |}) []
              default_maxDistance_pos eq_refl)
    as (_ & _ & _ & _ & _ & _ & _ & _ & _ & Hd).
  exact Hd.
Defined.

Lemma C4_clamp_projects_knob_witness :
  0 < maxDistance 140 /\
  joystickTouchId sStick = Some (NumId 1) /\
  maxDistance 140 <
    euclid 100 390 (x (joystickCenter 140 sStick))
                   (y (joystickCenter 140 sStick)) /\
  JoystickData.distance
    (dataAt 140 sStick (at_ 1 {| x := 100; y := 390 |})) = 1.
Proof.
  assert (Hlen : maxDistance 140 <
                 euclid 100 390 (x (joystickCenter 140 sStick))
                                (y (joystickCenter 140 sStick))).
  { rewrite default_maxDistance. apply euclid_gt_sq; [lra|].
    cbv [joystickCenter x y height overlaySize sStick s0 initial window0
         setJoyActive setJoystickTouchId joystickLeft joystickBottom].
    nra. }
  split; [exact default_maxDistance_pos|]. split; [reflexivity|].
  split; [exact Hlen|].
  destruct (C4_clamp_projects_knob 140 sStick sStick
              (at_ 1 {| x := 100; y := 390 |})
              default_maxDistance_pos eq_refl Hlen)
    as (_ & _ & _ & _ & _ & _ & _ & Hd & _).
  exact Hd.
Defined.



Lemma run_stickDown :
  joystickTouchId (fst (runEvents 140 stickDown s0)) = Some (NumId 1).
Proof.
  unfold stickDown, runEvents, dispatch, handleTouchStart, forOf, andThen.
  rewrite (touchStart1_joystick 140 s0 (at_ 1 stickCentre) s0 eq_refl)
    by (apply default_stickCentre; reflexivity).
  reflexivity.
Qed.

Lemma C6_release_on_end_or_cancel_witness :
  reachable 140 (fst (runEvents 140 stickDown s0)) /\
  handleTouchEnd (fst (runEvents 140 stickDown s0)) []
    (fst (runEvents 140 stickDown s0)) =
    (fst (runEvents 140 stickDown s0), []) /\
  joystickTouchId
    (fst (dispatch 140 (TouchEnd [at_ 1 stickCentre])
            (fst (runEvents 140 stickDown s0)))) = None.
Proof.
  assert (Hr : reachable 140 (fst (runEvents 140 stickDown s0))).
  { exists window0, stickDown. reflexivity. }
  split; [exact Hr|]. split; [reflexivity|].
  destruct (C6_release_on_end_or_cancel 140 _ _ [] [] []
              (at_ 1 stickCentre) Hr eq_refl)
    as (s2 & o2 & s3 & o3 & H2 & H3 & Hd & _ & _ & _ & Hj & _).
  simpl app in Hd. rewrite Hd. simpl.
  unfold handleTouchEnd in H3. simpl in H3. injection H3 as <- _.
  apply Hj. exact run_stickDown.
Defined.

Lemma C7_no_reclassification_witness :
  ~ beginsTouch (TouchStart [at_ 2 stickCentre]) (NumId 1) /\
  binding (fst (dispatch 140 (TouchStart [at_ 2 stickCentre]) sStick))
    (NumId 1) = Some Joystick.
Proof.
  assert (Hnb : ~ beginsTouch (TouchStart [at_ 2 stickCentre]) (NumId 1)).
  { simpl. intros H. apply list_elem_of_singleton in H. discriminate. }
  split; [exact Hnb|].
  destruct (C7_no_reclassification 140 sStick (NumId 1)) as (H1 & _).
  destruct (H1 _ Hnb) as [H | [[] _]]. rewrite H. reflexivity.
Defined.

Lemma C8_unbound_touch_ignored_witness :
  unbound s0 (NumId 7) /\
  touchEnd1 s0 (at_ 7 stickCentre) s0 = (s0, []).
Proof.
  assert (Hu : unbound s0 (NumId 7)).
  { split; [discriminate | apply lookup_empty]. }
  split; [exact Hu|].
  destruct (C8_unbound_touch_ignored 140 s0) as (H1 & _).
  exact (proj2 (H1 s0 (at_ 7 stickCentre) Hu)).
Defined.

Lemma C9_layout_frame_witness :
  (0 = 0 \/ 5 = 0) /\ dispatch 140 (Layout 0 5) sStick = (sStick, []).
Proof.
  assert (H0 : 0 = 0 \/ 5 = 0) by (left; reflexivity).
  split; [exact H0|].
  exact (proj1 (C9_layout_frame 140 0 5 sStick) H0).
Defined.

Lemma C10_begin_at_center_witness :
  0 < maxDistance 140 /\
  joystickTouchId s0 = None /\
  100 = x (joystickCenter 140 s0) /\
  290 = y (joystickCenter 140 s0) /\
  snd (touchStart1 140 s0 (at_ 1 stickCentre) s0) =
    [onJoystickMove {| JoystickData.x := 0; JoystickData.y := 0;
                       JoystickData.angle := 0;
                       JoystickData.distance := 0 |}].
Proof.
  assert (Hx : 100 = x (joystickCenter 140 s0)).
  { cbv [joystickCenter x joystickLeft]. lra. }
  assert (Hy : 290 = y (joystickCenter 140 s0)).
  { cbv [joystickCenter y joystickBottom s0 initial overlaySize window0
         height]. lra. }
  split; [exact default_maxDistance_pos|]. split; [reflexivity|].
  split; [exact Hx|]. split; [exact Hy|].
  exact (proj1 (proj2 (C10_begin_at_center 140 s0 s0 (at_ 1 stickCentre)
                         default_maxDistance_pos eq_refl Hx Hy))).
Defined.

(** ** The further properties at work *)

(** As the game screen wires the overlay, with a joystick size of 140, the
    vector it holds after any events is in range: x and y in [-1, 1], the
    angle in [0, 360) and the distance in [0, 1]. *)
Theorem game_screen_vector_in_range (window : Size) (evs : list HostEvent) :
  inRange (screenJoystickData (screenAfter 140 window evs)).
Proof. apply screen_vector_inRange, default_maxDistance_pos. Qed.

Lemma buttons_never_overlap_witness :
  {| type := attack; right := 20; bottom := 80 |} ∈ buttons /\
  inCircle 750 290
    (getButtonCenter s0 {| type := attack; right := 20; bottom := 80 |})
    buttonRadius /\
  hitTestButtons s0 750 290 = Some attack.
Proof.
  assert (Hin : {| type := attack; right := 20; bottom := 80 |} ∈ buttons)
    by left.
  assert (Hc : inCircle 750 290
                 (getButtonCenter s0
                    {| type := attack; right := 20; bottom := 80 |})
                 buttonRadius) by circle_arith.
  split; [exact Hin|]. split; [exact Hc|].
  exact (proj2 (proj2 (buttons_never_overlap s0 750 290) _ Hin) Hc).
Defined.

Lemma reachable_stickDown : reachable 140 (fst (runEvents 140 stickDown s0)).
Proof. exists window0, stickDown. reflexivity. Qed.

Lemma knob_within_travel_witness :
  0 < maxDistance 140 /\
  reachable 140 (fst (runEvents 140 stickDown s0)) /\
  knobWithinTravel 140 (fst (runEvents 140 stickDown s0)).
Proof.
  split; [exact default_maxDistance_pos|].
  split; [exact reachable_stickDown|].
  exact (proj1 (knob_within_travel 140 _ default_maxDistance_pos
                  reachable_stickDown)).
Defined.

Lemma release_unpresses_shared_button_witness :
  buttonTouches (fst (runEvents 140 twoOnAttack (initial window0)))
    !! NumId 1 = Some attack /\
  NumId 1 <> NumId 2 /\
  buttonTouches (fst (runEvents 140 twoOnAttack (initial window0)))
    !! NumId 2 = Some attack /\
  buttonTouches
    (fst (touchEnd1 s0 (at_ 1 attackCentre)
            (fst (runEvents 140 twoOnAttack (initial window0)))))
    !! NumId 2 = Some attack.
Proof.
  assert (H1 : buttonTouches (fst (runEvents 140 twoOnAttack
                                     (initial window0)))
                 !! NumId 1 = Some attack).
  { rewrite run_twoOnAttack. rewrite lookup_insert_ne by discriminate.
    apply lookup_insert_eq. }
  assert (H2 : buttonTouches (fst (runEvents 140 twoOnAttack
                                     (initial window0)))
                 !! NumId 2 = Some attack).
  { rewrite run_twoOnAttack. apply lookup_insert_eq. }
  assert (Hne : NumId 1 <> NumId 2) by discriminate.
  split; [exact H1|]. split; [exact Hne|]. split; [exact H2|].
  destruct (release_unpresses_shared_button s0 (at_ 1 attackCentre) _
              (NumId 2) attack H1 Hne H2) as (_ & _ & H & _).
  exact H.
Defined.

Lemma reachable_s0 : reachable 140 s0.
Proof. exists window0, []. reflexivity. Qed.

Lemma joystick_tap_round_trip_witness :
  reachable 140 s0 /\
  joystickTouchId s0 = None /\
  buttonTouches s0 !! NumId 1 = None /\
  inCircle 100 290 (joystickCenter 140 s0) (140 / 2) /\
  runEvents 140 [TouchStart [at_ 1 stickCentre];
                 TouchEnd [at_ 1 stickCentre]] s0 =
    (s0, [onJoystickMove (dataAt 140 s0 (at_ 1 stickCentre));
          onJoystickRelease]).
Proof.
  assert (Hin : inCircle 100 290 (joystickCenter 140 s0) (140 / 2))
    by circle_arith.
  split; [exact reachable_s0|]. split; [reflexivity|].
  split; [apply lookup_empty|]. split; [exact Hin|].
  exact (joystick_tap_round_trip 140 s0 (at_ 1 stickCentre)
           (at_ 1 stickCentre) reachable_s0 eq_refl (lookup_empty _) Hin
           eq_refl).
Defined.

Lemma button_tap_round_trip_witness :
  hitTestButtons s0 750 290 = Some attack /\
  unbound s0 (NumId 1) /\
  (attack ∉ pressedButtons s0) /\
  runEvents 140 [TouchStart [at_ 1 attackCentre];
                 TouchEnd [at_ 1 attackCentre]] s0 =
    (s0, [onButtonPress attack; onButtonRelease attack]).
Proof.
  destruct (default_attackCentre s0 eq_refl) as [Hj Hb].
  assert (Hu : unbound s0 (NumId 1)).
  { split; [discriminate | apply lookup_empty]. }
  assert (Hp : attack ∉ pressedButtons s0) by apply not_elem_of_empty.
  split; [exact Hb|]. split; [exact Hu|]. split; [exact Hp|].
  apply (button_tap_round_trip 140 s0 (at_ 1 attackCentre)
           (at_ 1 attackCentre) attack); auto.
  intros [_ Hin]. apply (hitTestJoystick_inCircle 140) in Hin.
  simpl in Hin. rewrite Hj in Hin. discriminate Hin.
Defined.

Lemma presses_balance_releases_witness :
  hostOk ∅ jumpThenAttack /\
  pressCount (snd (runEvents 140 jumpThenAttack (initial window0))) =
  (releaseCount (snd (runEvents 140 jumpThenAttack (initial window0))) +
   size (buttonTouches (fst (runEvents 140 jumpThenAttack
                               (initial window0)))))%nat.
Proof.
  split; [exact hostOk_jumpThenAttack|].
  exact (presses_balance_releases 140 window0 jumpThenAttack
           hostOk_jumpThenAttack).
Defined.

Lemma pressed_buttons_are_held_witness :
  hostOk ∅ jumpThenAttack /\
  pressedAreHeld (fst (runEvents 140 jumpThenAttack (initial window0))).
Proof.
  split; [exact hostOk_jumpThenAttack|].
  exact (pressed_buttons_are_held 140 window0 jumpThenAttack
           hostOk_jumpThenAttack).
Defined.


Lemma VirtualJoystick_invariant_witness :
  VirtualJoystick_reachable 140
    (fst (VirtualJoystick_run 140 startThenFarMove VirtualJoystick_initial)) /\
  0 < maxDistance 140 /\
  activeTouchId
    (fst (VirtualJoystick_run 140 startThenFarMove VirtualJoystick_initial))
    = Some (NumId 1) /\
  isActive
    (fst (VirtualJoystick_run 140 startThenFarMove VirtualJoystick_initial))
    = true /\
  euclid
    (x (position (fst (VirtualJoystick_run 140 startThenFarMove
                         VirtualJoystick_initial))))
    (y (position (fst (VirtualJoystick_run 140 startThenFarMove
                         VirtualJoystick_initial)))) 0 0
    <= maxDistance 140.
Proof.
  assert (Hr : VirtualJoystick_reachable 140
                 (fst (VirtualJoystick_run 140 startThenFarMove
                         VirtualJoystick_initial))).
  { exists startThenFarMove. reflexivity. }
  assert (Hid : activeTouchId
                  (fst (VirtualJoystick_run 140 startThenFarMove
                          VirtualJoystick_initial)) = Some (NumId 1)).
  { reflexivity. }
  destruct (VirtualJoystick_invariant 140 _ Hr) as (Ha & _ & Hk).
  split; [exact Hr|]. split; [exact default_maxDistance_pos|].
  split; [exact Hid|].
  split; [apply Ha; rewrite Hid; discriminate|].
  exact (Hk default_maxDistance_pos).
Defined.

Lemma VirtualJoystick_keeps_its_touch_witness :
  activeTouchId VirtualJoystick_held = Some (NumId 1) /\
  VirtualJoystick_handleTouchStart (oneTouch (at_ 2 stickCentre))
    VirtualJoystick_held = (VirtualJoystick_held, []).
Proof.
  split; [reflexivity|].
  exact (proj1 (proj1 (VirtualJoystick_keeps_its_touch 140
                         VirtualJoystick_held
                         (oneTouch (at_ 2 stickCentre)))
                  (NumId 1) eq_refl)).
Defined.

Lemma VirtualJoystick_vector_from_start_witness :
  activeTouchId VirtualJoystick_initial = None /\
  0 < maxDistance 140 /\
  snd (VirtualJoystick_run 140
         [JoyStart (oneTouch (at_ 1 stickCentre));
          JoyMove (oneTouch (at_ 1 stickCentre))]
         VirtualJoystick_initial) =
    [onMove (joystickData 140 (100 - 100) (290 - 290))].
Proof.
  split; [reflexivity|]. split; [exact default_maxDistance_pos|].
  destruct (VirtualJoystick_vector_from_start 140 VirtualJoystick_initial
              (oneTouch (at_ 1 stickCentre)) (oneTouch (at_ 1 stickCentre))
              (at_ 1 stickCentre) (at_ 1 stickCentre) [] []
              eq_refl eq_refl eq_refl eq_refl
              ltac:(intros t Ht; inversion Ht)) as (H & _).
  exact H.
Defined.

Lemma ActionButtons_end_releases_first_witness :
  changedTouches bothEnded = [] ++ at_ 1 jumpCentre :: [at_ 2 jumpCentre] /\
  activeTouches ActionButtons_twoOnJump !! NumId 1 = Some jump /\
  handleButtonTouchEnd jump bothEnded ActionButtons_twoOnJump =
    (ActionButtons_released jump (NumId 1) ActionButtons_twoOnJump,
     [onButtonRelease jump]) /\
  activeTouches
    (fst (handleButtonTouchEnd jump bothEnded ActionButtons_twoOnJump))
    !! NumId 2 = Some jump.
Proof.
  assert (H1 : activeTouches ActionButtons_twoOnJump !! NumId 1 = Some jump).
  { unfold ActionButtons_twoOnJump. simpl.
    rewrite lookup_insert_ne by discriminate. apply lookup_insert_eq. }
  assert (H2 : activeTouches ActionButtons_twoOnJump !! NumId 2 = Some jump).
  { unfold ActionButtons_twoOnJump. simpl. apply lookup_insert_eq. }
  destruct (ActionButtons_end_releases_first jump bothEnded
              ActionButtons_twoOnJump) as (_ & Hfirst & _).
  destruct (Hfirst [] (at_ 1 jumpCentre) [at_ 2 jumpCentre] eq_refl
              ltac:(intros t0 Ht0; inversion Ht0) H1) as [He Hkeep].
  split; [reflexivity|]. split; [exact H1|]. split; [exact He|].
  rewrite (Hkeep (NumId 2)) by discriminate. exact H2.
Defined.

Lemma ActionButtons_tap_round_trip_witness :
  last (touches (oneTouch (at_ 1 jumpCentre))) = Some (at_ 1 jumpCentre) /\
  activeTouches ActionButtons_initial !! NumId 1 = None /\
  handleButtonTouchEnd jump (oneTouch (at_ 1 jumpCentre))
    (fst (handleButtonTouchStart jump (oneTouch (at_ 1 jumpCentre))
            ActionButtons_initial)) =
  (ActionButtons_initial, [onButtonRelease jump]).
Proof.
  split; [reflexivity|]. split; [apply lookup_empty|].
  destruct (proj2 (ActionButtons_tap_round_trip jump
              (oneTouch (at_ 1 jumpCentre)) (oneTouch (at_ 1 jumpCentre))
              ActionButtons_initial (at_ 1 jumpCentre) (at_ 1 jumpCentre))
            eq_refl eq_refl eq_refl (lookup_empty _)
            (not_elem_of_empty _)) as (_ & _ & _ & H).
  exact H.
Defined.

Lemma injected_listener_covers_controls_witness :
  140 < 210 /\
  hitTestJoystick 140 s0 100 290 = true /\
  injectedListener
    [{| clientX := 100; clientY := 290 |};
     {| clientX := 400; clientY := 100 |}] 800 400 = Some true /\
  250 <= 400 <= 800 - 300 /\
  injectedListener
    [{| clientX := 400; clientY := 100 |};
     {| clientX := 100; clientY := 290 |}] 800 400 = Some false.
Proof.
  assert (Hlt : 140 < 210) by lra.
  assert (Hh : hitTestJoystick 140 s0 100 290 = true)
    by (apply default_stickCentre; reflexivity).
  assert (Hmid : 250 <= 400 <= 800 - 300) by lra.
  split; [exact Hlt|]. split; [exact Hh|].
  split.
  - destruct (injected_listener_covers_controls 140 s0
                {| clientX := 100; clientY := 290 |}
                [{| clientX := 400; clientY := 100 |}] Hlt)
      as (_ & _ & Hstop & _).
    exact (Hstop (or_introl Hh)).
  - split; [exact Hmid|].
    destruct (injected_listener_covers_controls 140 s0
                {| clientX := 400; clientY := 100 |}
                [{| clientX := 100; clientY := 290 |}] Hlt)
      as (_ & _ & _ & Hpass).
    exact (Hpass 800 400 Hmid).
Defined.
